(** * Vegapunk wallet backend: ledger, deposits, staking, referrals, reward credits

    A shallow embedding of the ledger-consistency core of the backend:
    the MySQL tables become fields of one database record, every
    transaction of the JavaScript sources becomes a function from a
    database to an outcome and a database (a rollback returns the database it
    was given), and JavaScript numbers are modelled by exact rationals.

    Each transaction runs under the row locks it takes (SELECT ... FOR
    UPDATE) and the airdrop trigger under its advisory lock, so the
    transactions of concurrent requests are modelled one after the other.

    Conventions used throughout:
    - monetary amounts are [Q]; equalities between amounts are stated with
      [==];
    - [Math.floor] is [Qfloor], [Math.round x] is [Qfloor (x + 1/2)];
    - a table with a unique key is a [gmap] on that key, a table that is read
      in insertion order is a list;
    - columns that no modelled query reads (ts, meta, tx_hash, created_at,
      updated_at) are left out. *)

From Stdlib Require Import ZArith QArith Qround Lqa Lia List String.
From stdpp Require Import gmap strings list fin_maps sorting.

Local Open Scope Z_scope.

(** ** JavaScript helpers *)

(** [x || fallback] on numbers: 0 is falsy. *)
Definition or_default (x fallback : Q) : Q :=
  if Qeq_bool x 0 then fallback else x.

(** [Math.round]: half-way cases go up. *)
Definition js_round (x : Q) : Z := Qfloor (x + (1 # 2)).

Definition Qmin' (x y : Q) : Q := if Qle_bool x y then x else y.
Definition Qmax' (x y : Q) : Q := if Qle_bool x y then y else x.

(** [x < y] on numbers. *)
Definition Qlt_bool (x y : Q) : bool := negb (Qle_bool y x).

Definition sumQ (l : list Q) : Q := fold_right Qplus 0%Q l.

(** ** Tables *)

(** [wallet_ledger.ref_id]. The column holds either NULL, the decimal text of
    an integer id, or the text [reward_credit:<id>]. *)
Inductive RefId :=
| RefNull
| RefNum (n : Z)
| RefRewardCredit (id : Z).

Global Instance RefId_eq_dec : EqDecision RefId.
Proof. solve_decision. Defined.

Record LedgerRow := {
  l_id : Z;
  l_user : Z;
  l_asset : string;
  l_chain : option string;
  l_type : string;
  l_amount : Q;
  l_ref : RefId
}.

Inductive DepositStatus :=
| DPending | DSeen | DConfirming | DConfirmed | DCredited | DSweeping | DSwept.

Global Instance DepositStatus_eq_dec : EqDecision DepositStatus.
Proof. solve_decision. Defined.

(** [crypto_deposits] *)
Record Deposit := {
  d_user : Z;
  d_asset : string;
  d_chain : string;
  d_source : option string;
  d_amount_received : option Q;
  d_confirmations : option Z;
  d_required : Z;
  d_status : DepositStatus;
  d_swept : bool
}.

Inductive PositionStatus := PActive | PCompleted.

Global Instance PositionStatus_eq_dec : EqDecision PositionStatus.
Proof. solve_decision. Defined.

(** [staking_positions] *)
Record Position := {
  p_user : Z;
  p_units : Z;
  p_unit_amount_usdt : Q;
  p_amount_usdt : Q;
  p_cap_multiplier : Q;
  p_cap_usdt : Q;
  p_credited_usdt : Q;
  p_status : PositionStatus
}.

(** [staking_airdrops] *)
Record Airdrop := {
  a_id : Z;
  a_round : Z;
  a_trigger_units : Z;
  a_airdrop_units : Z
}.

(** [staking_airdrop_recipients] *)
Record Recipient := {
  r_id : Z;
  r_airdrop : Z;
  r_user : Z;
  r_position : Z;
  r_amount_usdt : Q
}.

(** [users], restricted to the referral back-pointer. *)
Record User := {
  u_id : Z;
  u_referrer : option Z
}.

Inductive CreditStatus := CLocked | CClaimable | CClaimed | CExpired | CCancelled.

Global Instance CreditStatus_eq_dec : EqDecision CreditStatus.
Proof. solve_decision. Defined.

(** [reward_credits.conditions_json] after [safeJson]: the keys the evaluator
    reads, each absent ([None]) or present.  Numeric keys hold the value of
    [Number(...)], source keys the value of [String(...).toLowerCase()]. *)
Record Conditions := {
  deposit_usdt_min : option Q;
  depositUsdtMin : option Q;
  deposit_source : option string;
  depositSource : option string;
  referrals_min : option Q;
  referralsMin : option Q;
  referee_deposit_usdt_min : option Q;
  refereeDepositUsdtMin : option Q;
  referral_deposit_usdt_min : option Q;
  referralDepositUsdtMin : option Q;
  referee_deposit_source : option string;
  refereeDepositSource : option string
}.

(** [reward_credits.progress_json]: the recomputed snapshot. *)
Record Progress := {
  pr_deposit_usdt_total : Q;
  pr_deposit_source : string;
  pr_referrals_total : nat;
  pr_referrals_done : nat;
  pr_referrals_required_min : Q;
  pr_referee_deposit_usdt_min : Q;
  pr_referee_deposit_source : string;
  pr_updated_at : Z
}.

(** [reward_credits] *)
Record Credit := {
  c_user : Z;
  c_amount_usdt : Q;
  c_conditions : Conditions;
  c_progress : option Progress;
  c_status : CreditStatus;
  c_expires_at : option Z;
  c_claimable_at : option Z;
  c_claimed_at : option Z
}.

Inductive RefType := Conversion | StakingReward.

Global Instance RefType_eq_dec : EqDecision RefType.
Proof. solve_decision. Defined.

Inductive Level := Lvl1 | Lvl2 | Lvl3 | LvlCompany.

Global Instance Level_eq_dec : EqDecision Level.
Proof. solve_decision. Defined.

Inductive EventStatus := EvPending | EvCredited.

Global Instance EventStatus_eq_dec : EqDecision EventStatus.
Proof. solve_decision. Defined.

(** [referral_events] *)
Record RefEvent := {
  e_id : Z;
  e_referee : Z;
  e_referrer : Z;
  e_type : RefType;
  e_asset : string;
  e_base_amount : Q;
  e_commission : Q;
  e_status : EventStatus;
  e_source_ref : string;
  e_level : Level;
  e_claim : option Z
}.

(** The database. *)
Record Db := {
  balances : gmap (Z * string) Q;
  ledger : list LedgerRow;
  deposits : gmap Z Deposit;
  positions : gmap Z Position;
  airdrops : list Airdrop;
  recipients : list Recipient;
  users : list User;
  credits : gmap Z Credit;
  events : list RefEvent;
  claims : list (Z * Q)
}.

Definition empty_db : Db :=
  {| balances := ∅; ledger := []; deposits := ∅; positions := ∅;
     airdrops := []; recipients := []; users := []; credits := ∅;
     events := []; claims := [] |}.

Definition set_balances (f : gmap (Z * string) Q → gmap (Z * string) Q) (db : Db) : Db :=
  {| balances := f (balances db); ledger := ledger db; deposits := deposits db;
     positions := positions db; airdrops := airdrops db;
     recipients := recipients db; users := users db; credits := credits db;
     events := events db; claims := claims db |}.

Definition set_ledger (f : list LedgerRow → list LedgerRow) (db : Db) : Db :=
  {| balances := balances db; ledger := f (ledger db); deposits := deposits db;
     positions := positions db; airdrops := airdrops db;
     recipients := recipients db; users := users db; credits := credits db;
     events := events db; claims := claims db |}.

Definition set_deposits (f : gmap Z Deposit → gmap Z Deposit) (db : Db) : Db :=
  {| balances := balances db; ledger := ledger db; deposits := f (deposits db);
     positions := positions db; airdrops := airdrops db;
     recipients := recipients db; users := users db; credits := credits db;
     events := events db; claims := claims db |}.

Definition set_positions (f : gmap Z Position → gmap Z Position) (db : Db) : Db :=
  {| balances := balances db; ledger := ledger db; deposits := deposits db;
     positions := f (positions db); airdrops := airdrops db;
     recipients := recipients db; users := users db; credits := credits db;
     events := events db; claims := claims db |}.

Definition set_airdrops (f : list Airdrop → list Airdrop) (db : Db) : Db :=
  {| balances := balances db; ledger := ledger db; deposits := deposits db;
     positions := positions db; airdrops := f (airdrops db);
     recipients := recipients db; users := users db; credits := credits db;
     events := events db; claims := claims db |}.

Definition set_recipients (f : list Recipient → list Recipient) (db : Db) : Db :=
  {| balances := balances db; ledger := ledger db; deposits := deposits db;
     positions := positions db; airdrops := airdrops db;
     recipients := f (recipients db); users := users db; credits := credits db;
     events := events db; claims := claims db |}.

Definition set_credits (f : gmap Z Credit → gmap Z Credit) (db : Db) : Db :=
  {| balances := balances db; ledger := ledger db; deposits := deposits db;
     positions := positions db; airdrops := airdrops db;
     recipients := recipients db; users := users db; credits := f (credits db);
     events := events db; claims := claims db |}.

Definition set_events (f : list RefEvent → list RefEvent) (db : Db) : Db :=
  {| balances := balances db; ledger := ledger db; deposits := deposits db;
     positions := positions db; airdrops := airdrops db;
     recipients := recipients db; users := users db; credits := credits db;
     events := f (events db); claims := claims db |}.

Definition set_claims (f : list (Z * Q) → list (Z * Q)) (db : Db) : Db :=
  {| balances := balances db; ledger := ledger db; deposits := deposits db;
     positions := positions db; airdrops := airdrops db;
     recipients := recipients db; users := users db; credits := credits db;
     events := events db; claims := f (claims db) |}.

(** [ORDER BY id ASC] on the rows of a keyed table. *)
Definition by_id {A} (x y : Z * A) : Prop := x.1 ≤ y.1.

Global Instance by_id_dec {A} : RelDecision (@by_id A).
Proof. intros x y. unfold by_id. apply _. Defined.

Definition rows_by_id {A} (m : gmap Z A) : list (Z * A) :=
  merge_sort by_id (map_to_list m).

(** ** Ledger store *)

(** [SELECT balance ... WHERE user_id=? AND asset=?] read through
    [Number(row?.balance || 0)]. *)
Definition balance_of (db : Db) (u : Z) (a : string) : Q :=
  default 0%Q (balances db !! (u, a)).

(** [INSERT INTO wallet_balances ... ON DUPLICATE KEY UPDATE
    balance = balance + VALUES(balance)] *)
Definition upsert_balance (u : Z) (a : string) (v : Q) (db : Db) : Db :=
  set_balances (λ m,
    match m !! (u, a) with
    | Some b => <[(u, a) := (b + v)%Q]> m
    | None => <[(u, a) := v]> m
    end) db.

(** [INSERT ... VALUES (?, asset, 0) ON DUPLICATE KEY UPDATE balance = balance] *)
Definition ensure_balance (u : Z) (a : string) (db : Db) : Db :=
  set_balances (λ m,
    match m !! (u, a) with
    | Some _ => m
    | None => <[(u, a) := 0%Q]> m
    end) db.

(** [UPDATE wallet_balances SET balance = balance + ? WHERE user_id=? AND asset=?] *)
Definition update_balance (u : Z) (a : string) (v : Q) (db : Db) : Db :=
  set_balances (alter (λ b, (b + v)%Q) (u, a)) db.

(** AUTO_INCREMENT ids: of the append-only tables, and of a keyed table. *)
Definition next_id {A} (rows : list A) : Z := Z.of_nat (length rows) + 1.

Definition fresh_key {A} (m : gmap Z A) : Z :=
  1 + map_fold (λ k _ acc, Z.max k acc) 0 m.

(** [INSERT INTO wallet_ledger (user_id, ts, asset, chain, type, amount,
    ref_id, meta) VALUES ...] *)
Definition insert_ledger (u : Z) (a : string) (ch : option string)
    (ty : string) (amt : Q) (ref : RefId) (db : Db) : Db :=
  set_ledger (λ l, l ++ [{| l_id := next_id l; l_user := u; l_asset := a;
                            l_chain := ch; l_type := ty; l_amount := amt;
                            l_ref := ref |}]) db.

(** The classification of GET /v1/wallet/ledger. *)
Definition PLUS : gset string :=
  list_to_set ["deposit"; "refund"; "transfer_in"; "stake_payout";
               "stake_refund"; "stake_referral"; "referral_reward";
               "referral_bonus"; "swap_in"].

Definition MINUS : gset string :=
  list_to_set ["withdraw"; "transfer_out"; "purchase"; "fee"; "stake_lock";
               "swap_out"].

(** [signed = PLUS.has(type) ? base : MINUS.has(type) ? -base : base] *)
Definition signed (r : LedgerRow) : Q :=
  let base := l_amount r in
  if bool_decide (l_type r ∈ PLUS) then base
  else if bool_decide (l_type r ∈ MINUS) then (- base)%Q
  else base.

Definition row_of (u : Z) (a : string) (r : LedgerRow) : bool :=
  bool_decide (l_user r = u) && bool_decide (l_asset r = a).

(** The signed sum of the ledger rows of one (user, asset). *)
Definition ledger_sum (db : Db) (u : Z) (a : string) : Q :=
  sumQ (map signed (List.filter (row_of u a) (ledger db))).

(** ** Reward-eligibility evaluator (lib/reward_credits.js) *)

(** [pick(conditions, keys, fallback)]: the first key that is present. *)
Fixpoint pick {A} (vals : list (option A)) (fallback : A) : A :=
  match vals with
  | [] => fallback
  | Some v :: _ => v
  | None :: rest => pick rest fallback
  end.

Definition is_usdt_deposit (r : LedgerRow) : bool :=
  bool_decide (l_type r = "deposit") && bool_decide (l_asset r = "USDT").

(** [JOIN crypto_deposits d ON d.id = l.ref_id ... AND d.source = src].
    Only a numeric ref_id can name a deposit row. *)
Definition row_source_is (db : Db) (src : string) (r : LedgerRow) : bool :=
  match l_ref r with
  | RefNum n =>
      match deposits db !! n with
      | Some d => bool_decide (d_source d = Some src)
      | None => false
      end
  | _ => false
  end.

Record DepositTotals := {
  dt_any : Q;
  dt_coinsph : Q;
  dt_binance : Q
}.

Definition getDepositTotals (db : Db) (userId : Z) : DepositTotals :=
  let mine :=
    List.filter (λ r, bool_decide (l_user r = userId) && is_usdt_deposit r)
                (ledger db) in
  {| dt_any := sumQ (map l_amount mine);
     dt_coinsph := sumQ (map l_amount (List.filter (row_source_is db "coinsph") mine));
     dt_binance := sumQ (map l_amount (List.filter (row_source_is db "binance") mine)) |}.

(** The [deposited_usdt] column of the referral query: the SUM of
    [CASE WHEN l.type='deposit' AND l.asset='USDT' AND (?='any' OR d.source=?)
     THEN l.amount ELSE 0 END] over the ledger rows of one referred user. *)
Definition deposited_usdt (db : Db) (src : string) (uid : Z) : Q :=
  sumQ (map (λ r, if is_usdt_deposit r &&
                     (bool_decide (src = "any") || row_source_is db src r)
                  then l_amount r else 0%Q)
            (List.filter (λ r, bool_decide (l_user r = uid)) (ledger db))).

Record RefProgress := {
  rp_total : nat;
  rp_eligibleCount : nat;
  rp_missing : list (Z * Q)
}.

(** The users with [referrer_id = userId]. *)
Definition referred_by (db : Db) (userId : Z) : list User :=
  List.filter (λ u, bool_decide (u_referrer u = Some userId)) (users db).

Definition getReferralDepositProgress (db : Db) (userId : Z) (minUsdt : Q)
    (source : string) : RefProgress :=
  let src := if bool_decide (source = "") then "any" else source in
  let need := minUsdt in
  let details :=
    map (λ u, let deposited := deposited_usdt db src (u_id u) in
              (u_id u, deposited, Qle_bool need deposited))
        (referred_by db userId) in
  {| rp_total := length details;
     rp_eligibleCount := length (List.filter (λ x, x.2) details);
     rp_missing := map (λ x, x.1) (List.filter (λ x, negb x.2) details) |}.

Definition cond_depositMin (c : Conditions) : Q :=
  pick [deposit_usdt_min c; depositUsdtMin c] 0%Q.
Definition cond_depositSource (c : Conditions) : string :=
  pick [deposit_source c; depositSource c] "any".
Definition cond_referralsMin (c : Conditions) : Q :=
  pick [referrals_min c; referralsMin c] 0%Q.
Definition cond_refereeDepositMin (c : Conditions) : Q :=
  pick [referee_deposit_usdt_min c; refereeDepositUsdtMin c;
        referral_deposit_usdt_min c; referralDepositUsdtMin c] 10%Q.
Definition cond_refereeDepositSource (c : Conditions) : string :=
  pick [referee_deposit_source c; refereeDepositSource c] "any".

Definition depositTotal_for (t : DepositTotals) (depositSource : string) : Q :=
  if bool_decide (depositSource = "coinsph") then dt_coinsph t
  else if bool_decide (depositSource = "binance") then dt_binance t
  else dt_any t.

(** [refProg]: computed only when [referralsMin > 0]. *)
Definition refProg_for (db : Db) (userId : Z) (c : Conditions) : RefProgress :=
  if Qlt_bool 0 (cond_referralsMin c)
  then getReferralDepositProgress db userId (cond_refereeDepositMin c)
                                  (cond_refereeDepositSource c)
  else {| rp_total := 0; rp_eligibleCount := 0; rp_missing := [] |}.

Definition progress_for (db : Db) (now userId : Z) (c : Conditions) : Progress :=
  let rp := refProg_for db userId c in
  {| pr_deposit_usdt_total :=
       depositTotal_for (getDepositTotals db userId) (cond_depositSource c);
     pr_deposit_source := cond_depositSource c;
     pr_referrals_total := rp_total rp;
     pr_referrals_done := rp_eligibleCount rp;
     pr_referrals_required_min := cond_referralsMin c;
     pr_referee_deposit_usdt_min := cond_refereeDepositMin c;
     pr_referee_deposit_source := cond_refereeDepositSource c;
     pr_updated_at := now |}.

(** [depositOk = depositMin <= 0 ? true : depositTotal >= depositMin] *)
Definition depositOk (db : Db) (userId : Z) (c : Conditions) : bool :=
  if Qle_bool (cond_depositMin c) 0 then true
  else Qle_bool (cond_depositMin c)
         (depositTotal_for (getDepositTotals db userId) (cond_depositSource c)).

(** [refOk = referralsMin <= 0 ? true : qualified >= referralsMin] *)
Definition refOk (db : Db) (userId : Z) (c : Conditions) : bool :=
  if Qle_bool (cond_referralsMin c) 0 then true
  else Qle_bool (cond_referralsMin c)
         (inject_Z (Z.of_nat (rp_eligibleCount (refProg_for db userId c)))).

Definition not_expired (now : Z) (c : Credit) : bool :=
  match c_expires_at c with
  | None => true
  | Some t => bool_decide (now < t)
  end.

(** The rows of the pass: [user_id=? AND status IN ('locked','claimable')
    AND (expires_at IS NULL OR expires_at > NOW())]. *)
Definition evaluated (now userId : Z) (c : Credit) : bool :=
  bool_decide (c_user c = userId) &&
  (bool_decide (c_status c = CLocked) || bool_decide (c_status c = CClaimable)) &&
  not_expired now c.

Definition with_credit_state (c : Credit) (st : CreditStatus)
    (claimable_at claimed_at : option Z) (pr : option Progress) : Credit :=
  {| c_user := c_user c; c_amount_usdt := c_amount_usdt c;
     c_conditions := c_conditions c; c_progress := pr; c_status := st;
     c_expires_at := c_expires_at c; c_claimable_at := claimable_at;
     c_claimed_at := claimed_at |}.

(** The body of the loop over the selected credits: one UPDATE of the row
    [id = c.id]. *)
Definition evaluate_credit (db : Db) (now userId : Z) (c : Credit) : Credit :=
  if evaluated now userId c then
    let progress := Some (progress_for db now userId (c_conditions c)) in
    if depositOk db userId (c_conditions c) && refOk db userId (c_conditions c) then
      if bool_decide (c_status c = CClaimable)
      then with_credit_state c CClaimable (c_claimable_at c) (c_claimed_at c) progress
      else with_credit_state c CClaimable (Some now) (c_claimed_at c) progress
    else
      if bool_decide (c_status c = CClaimable)
      then with_credit_state c CLocked None (c_claimed_at c) progress
      else with_credit_state c CLocked (c_claimable_at c) (c_claimed_at c) progress
  else c.

(** [evaluateRewardCreditsForUser(conn, userId)]. The pass reads the ledger,
    the users and the deposits and writes only [reward_credits], one row per
    selected credit, so the loop is a map over the table. The counters it
    returns are not modelled. *)
Definition evaluateRewardCreditsForUser (now userId : Z) (db : Db) : Db :=
  set_credits (fmap (evaluate_credit db now userId)) db.

(** ** Reward-credit claim (routes/reward_credits.js) *)

Inductive ClaimResult :=
| ClaimNoToken
| ClaimBadCreditId
| ClaimNotFound
| ClaimExpired
| ClaimAlready (claimed_usdt : Q)
| ClaimNotClaimable (st : CreditStatus)
| ClaimBadAmount
| ClaimOk (claimed_usdt : Q).

(** The replay check: a ledger row of the user with type [reward_credit] and
    ref_id [reward_credit:<id>] or the old numeric ref_id. *)
Definition is_claim_row (userId creditId : Z) (r : LedgerRow) : bool :=
  bool_decide (l_user r = userId) &&
  bool_decide (l_type r = "reward_credit") &&
  (bool_decide (l_ref r = RefRewardCredit creditId) ||
   bool_decide (l_ref r = RefNum creditId)).

Definition claimCredit (now userId creditId : Z) (db : Db) : ClaimResult * Db :=
  if bool_decide (userId = 0) then (ClaimNoToken, db)
  else if bool_decide (creditId <= 0) then (ClaimBadCreditId, db)
  else
    let db1 := evaluateRewardCreditsForUser now userId db in
    match credits db1 !! creditId with
    | None => (ClaimNotFound, db)
    | Some c =>
      if negb (bool_decide (c_user c = userId)) then (ClaimNotFound, db)
      else if negb (not_expired now c) then
        (ClaimExpired,
         set_credits (alter (λ c, with_credit_state c CExpired (c_claimable_at c)
                                    (c_claimed_at c) (c_progress c)) creditId) db1)
      else if bool_decide (c_status c = CClaimed) then
        (ClaimAlready (c_amount_usdt c), db)
      else if negb (bool_decide (c_status c = CClaimable)) then
        (ClaimNotClaimable (c_status c), db)
      else
        let amt := c_amount_usdt c in
        if Qle_bool amt 0 then (ClaimBadAmount, db)
        else if existsb (is_claim_row userId creditId) (ledger db1) then
          (ClaimAlready amt,
           set_credits (alter (λ c, with_credit_state c CClaimed (c_claimable_at c)
                                      (Some (default now (c_claimed_at c)))
                                      (c_progress c)) creditId) db1)
        else
          (ClaimOk amt,
           set_credits (alter (λ c, if bool_decide (c_status c = CClaimable)
                                    then with_credit_state c CClaimed (c_claimable_at c)
                                           (Some now) (c_progress c)
                                    else c) creditId)
             (insert_ledger userId "USDT" (Some "SYSTEM") "reward_credit" amt
                            (RefRewardCredit creditId)
                (upsert_balance userId "USDT" amt db1)))
    end.

(** ** Deposit credit paths *)

Inductive CreditOutcome :=
| CreditDone
| CreditSkipped
| CreditThrew (msg : string).

(** [SELECT id FROM wallet_ledger WHERE type='deposit' AND ref_id=?] *)
Definition is_deposit_row (depositId : Z) (r : LedgerRow) : bool :=
  bool_decide (l_type r = "deposit") && bool_decide (l_ref r = RefNum depositId).

Definition with_deposit_state (d : Deposit) (amt : option Q) (conf : option Z)
    (st : DepositStatus) (swept : bool) : Deposit :=
  {| d_user := d_user d; d_asset := d_asset d; d_chain := d_chain d;
     d_source := d_source d; d_amount_received := amt; d_confirmations := conf;
     d_required := d_required d; d_status := st; d_swept := swept |}.

(** [UPDATE crypto_deposits SET status='credited',
    amount_received = COALESCE(amount_received, ?),
    confirmations = GREATEST(COALESCE(confirmations,0), required_confirmations)] *)
Definition mark_credited (amtNum : Q) (d : Deposit) : Deposit :=
  with_deposit_state d
    (Some (default amtNum (d_amount_received d)))
    (Some (Z.max (default 0 (d_confirmations d)) (d_required d)))
    DCredited (d_swept d).

(** [creditDepositAndWebhook({ depositId, amount, ... })] of bsc_watcher.js
    ([evaluate = true]: the reward credits of the user are re-evaluated inside
    the transaction) and of the server ([evaluate = false]); the manual admin
    credit and the dev credit call the server's helper. A throw rolls the
    transaction back. *)
Definition creditDepositAndWebhook (evaluate : bool) (now depositId : Z)
    (amount : option Q) (db : Db) : CreditOutcome * Db :=
  match deposits db !! depositId with
  | None => (CreditThrew "deposit_not_found", db)
  | Some dep =>
    if existsb (is_deposit_row depositId) (ledger db) then (CreditSkipped, db)
    else
      let amtNum :=
        match amount with
        | Some a => a
        | None => default 0%Q (d_amount_received dep)
        end in
      if Qle_bool amtNum 0 then (CreditThrew "invalid_amount", db)
      else
        let db1 := upsert_balance (d_user dep) (d_asset dep) amtNum db in
        let db2 := insert_ledger (d_user dep) (d_asset dep) (Some (d_chain dep))
                                 "deposit" amtNum (RefNum depositId) db1 in
        let db3 := set_deposits (alter (mark_credited amtNum) depositId) db2 in
        (CreditDone,
         if evaluate then evaluateRewardCreditsForUser now (d_user dep) db3 else db3)
  end.

Definition CONFIRMATIONS_REQUIRED : Z := 12.

(** The body of the watcher's loop over the transfer logs of one scan: the
    fact [(depositId, confirmations, humanAmount)] updates the intent, and the
    credit fires once the confirmations reach the required count. [dep] is the
    row as the scan selected it. *)
Definition scan_log (now depositId : Z) (dep : Deposit) (confirmations : Z)
    (humanAmount : Q) (db : Db) : Db :=
  if Qle_bool humanAmount 0 then db
  else
    let requiredConfs :=
      if bool_decide (d_required dep = 0) then CONFIRMATIONS_REQUIRED
      else d_required dep in
    let db1 :=
      set_deposits (alter (λ d, with_deposit_state d
                                  (Some (default humanAmount (d_amount_received d)))
                                  (Some confirmations) DConfirming (d_swept d))
                          depositId) db in
    if bool_decide (requiredConfs ≤ confirmations)
    then (creditDepositAndWebhook true now depositId (Some humanAmount) db1).2
    else db1.

(** What the chain answers while the sweeper moves the funds of one deposit
    address. *)
Inductive SweepEnv :=
| SweepAddressMismatch
| SweepZeroBalance
| SweepGasNotReady
| SweepTransferThrows
| SweepWaitFails
| SweepConfirmed.


Definition set_deposit_status (st : DepositStatus) (swept : bool) (id : Z) (db : Db) : Db :=
  set_deposits (alter (λ d, with_deposit_state d (d_amount_received d)
                              (d_confirmations d) st swept) id) db.

(** Step 3 of the sweeper for one row. A throw is caught by the loop and
    leaves what was already written. *)
Definition sweeper_sweep (env : SweepEnv) (id : Z) (db : Db) : Db :=
  match env with
  | SweepAddressMismatch => db
  | SweepZeroBalance => set_deposit_status DSwept true id db
  | SweepGasNotReady => db
  | SweepTransferThrows => db
  | SweepWaitFails =>
      set_deposits (alter (λ d, with_deposit_state d (d_amount_received d)
                                  (d_confirmations d) DSweeping (d_swept d)) id) db
  | SweepConfirmed => set_deposit_status DSwept true id db
  end.

(** The body of the sweeper's loop for the row [d] (as selected) with id
    [id]. The sweeper writes without a transaction. A NULL [amount_received]
    is credited as 0 here. *)
Definition sweeper_process (MIN_DEPOSIT : Q) (env : SweepEnv) (id : Z)
    (d : Deposit) (db : Db) : Db :=
  let enoughConfs := bool_decide (d_required d ≤ default 0 (d_confirmations d)) in
  let amtNum := default 0%Q (d_amount_received d) in
  let minOk := if Qle_bool MIN_DEPOSIT 0 then true else Qle_bool MIN_DEPOSIT amtNum in
  if enoughConfs && negb (bool_decide (d_status d = DCredited)) && minOk then
    let changed :=
      match deposits db !! id with
      | Some cur => negb (bool_decide (d_status cur = DCredited))
      | None => false
      end in
    let db1 :=
      set_deposits (alter (λ cur, with_deposit_state cur (d_amount_received cur)
                                    (d_confirmations cur) DCredited (d_swept cur)) id) db in
    let db2 :=
      if changed
      then insert_ledger (d_user d) (d_asset d) (Some (d_chain d)) "deposit"
                         amtNum (RefNum id)
             (upsert_balance (d_user d) (d_asset d) amtNum db1)
      else db1 in
    sweeper_sweep env id db2
  else if negb enoughConfs then db
  else if negb minOk then db
  else sweeper_sweep env id db.



(** ** Staking engine (routes/staking.js) *)

Definition STAKE_UNIT_USDT : Q := 9.
Definition STAKE_UNIT : Q := STAKE_UNIT_USDT.
Definition DEFAULT_MULT : Q := 3.
Definition VPK_PER_USDT : Q := 100.
Definition STAKE_UNIT_VPK : Q := STAKE_UNIT_USDT * VPK_PER_USDT.

Definition AIRDROP_TRIGGER_UNITS : Z := 60.
Definition AIRDROP_REWARD_UNITS : nat := 6.
Definition OLD_PICK : nat := 6.
Definition NEW_PICK : nat := 4.

Inductive StakeResult :=
| StakeBadBody
| StakeMin900Vpk
| StakeInsufficientFunds (need have : Q)
| StakeOk (posId : Z) (p : Position).

(** The unit count of a stake request: [Math.floor(Number(body.units))] when
    the field is there, [Math.floor(amtVpk / STAKE_UNIT_VPK)] otherwise. *)
Definition requested_units (body_amount body_units : option Q) : Z :=
  match body_units with
  | Some u => Qfloor u
  | None => Qfloor (default 0%Q body_amount / STAKE_UNIT_VPK)
  end.

(** POST /positions. The body fields are absent ([None]) or finite numbers;
    [cap_multiplier ?? DEFAULT_MULT] falls back only when the field is absent. *)
Definition stake_open (userId : Z) (body_amount body_units body_cap_multiplier : option Q)
    (db : Db) : StakeResult * Db :=
  match body_amount, body_units with
  | None, None => (StakeBadBody, db)
  | _, _ =>
    let mult := default DEFAULT_MULT body_cap_multiplier in
    let units := requested_units body_amount body_units in
    if bool_decide (units < 1) then (StakeMin900Vpk, db)
    else
      let unitAmtUsdt := STAKE_UNIT_USDT in
      let stakeUsdtVal := (inject_Z units * unitAmtUsdt)%Q in
      let stakeVpk := (inject_Z units * STAKE_UNIT_VPK)%Q in
      let capTotalUsdt := (stakeUsdtVal * mult)%Q in
      let db1 := ensure_balance userId "VPK" db in
      let currentVpk := balance_of db1 userId "VPK" in
      if Qlt_bool currentVpk stakeVpk
      then (StakeInsufficientFunds stakeVpk currentVpk, db)
      else
        let db2 := update_balance userId "VPK" (- stakeVpk) db1 in
        let posId := fresh_key (positions db2) in
        let pos := {| p_user := userId; p_units := units;
                      p_unit_amount_usdt := unitAmtUsdt;
                      p_amount_usdt := stakeUsdtVal; p_cap_multiplier := mult;
                      p_cap_usdt := capTotalUsdt; p_credited_usdt := 0;
                      p_status := PActive |} in
        let db3 := set_positions (insert posId pos) db2 in
        (StakeOk posId pos,
         insert_ledger userId "VPK" None "stake_lock" stakeVpk (RefNum posId) db3)
  end.

Record Ticket := {
  t_position : Z;
  t_user : Z
}.

Global Instance Ticket_eq_dec : EqDecision Ticket.
Proof. solve_decision. Defined.

(** The amount one ticket pays: [unit_amount_usdt || STAKE_UNIT] times
    [cap_multiplier || DEFAULT_MULT]. *)
Definition per_unit (p : Position) : Q :=
  (or_default (p_unit_amount_usdt p) STAKE_UNIT *
   or_default (p_cap_multiplier p) DEFAULT_MULT)%Q.

(** [Math.floor((cap - cred) / perUnitCap)] *)
Definition capacity_units (p : Position) : Z :=
  Qfloor ((p_cap_usdt p - p_credited_usdt p) / per_unit p).

Definition unconsumedUnits (p : Position) : Z :=
  Z.max 0 (Z.min (p_units p) (capacity_units p)).

Definition tickets_of (n : Z) (id : Z) (p : Position) : list Ticket :=
  repeat {| t_position := id; t_user := p_user p |} (Z.to_nat n).

(** The body of the loop of [buildCohortsConsumed] over the positions in
    creation order; the accumulator is (oldTickets, newTickets, globalIdx). *)
Definition cohort_step (prevUnits : Z) (acc : list Ticket * list Ticket * Z)
    (row : Z * Position) : list Ticket * list Ticket * Z :=
  let '(oldTickets, newTickets, globalIdx) := acc in
  let r := row.2 in
  let nextUnitsUpper := prevUnits + AIRDROP_TRIGGER_UNITS in
  let units := p_units r in
  if bool_decide (units ≤ 0) then acc
  else
    let start := globalIdx + 1 in
    let end_ := globalIdx + units in
    if negb (bool_decide (p_status r = PActive)) then (oldTickets, newTickets, end_)
    else
      let unconsumed := unconsumedUnits r in
      if bool_decide (unconsumed ≤ 0) then (oldTickets, newTickets, end_)
      else
        let oldOverlap := Z.max 0 (Z.min end_ prevUnits - start + 1) in
        let newOverlap :=
          Z.max 0 (Z.min end_ nextUnitsUpper - Z.max start (prevUnits + 1) + 1) in
        if bool_decide (oldOverlap + newOverlap ≤ 0) then (oldTickets, newTickets, end_)
        else
          let oldShare := Z.min oldOverlap unconsumed in
          let newShare := Z.min newOverlap (unconsumed - oldShare) in
          (oldTickets ++ tickets_of oldShare row.1 r,
           newTickets ++ tickets_of newShare row.1 r,
           end_).

Definition buildCohortsConsumed (db : Db) (prevUnits : Z) : list Ticket * list Ticket :=
  (fold_left (cohort_step prevUnits) (rows_by_id (positions db)) ([], [], 0)).1.

(** [pickWithoutReplacement(arr, k)]. The draws of [crypto.randomInt] come
    from the list [rs], one per iteration, each reduced into [0, bag.length);
    the function returns the draws it did not use. *)
Fixpoint pick_loop {A} (k : nat) (bag : list A) (rs : list nat) : list A * list nat :=
  match k with
  | O => ([], rs)
  | S k' =>
      let idx := (hd 0%nat rs `mod` length bag)%nat in
      match bag !! idx with
      | Some x =>
          let '(out, rs') := pick_loop k' (delete idx bag) (tl rs) in
          (x :: out, rs')
      | None => ([], rs)
      end
  end.

Definition pickWithoutReplacement {A} (arr : list A) (k : nat) (rs : list nat)
    : list A * list nat :=
  if bool_decide (k = 0%nat) || bool_decide (length arr = 0%nat) then ([], rs)
  else if bool_decide (length arr ≤ k)%nat then (arr, rs)
  else pick_loop k arr rs.

(** The winner selection of one round: (oldWinners, newWinners, unused draws). *)
Definition select_winners (oldTickets newTickets : list Ticket) (rs : list nat)
    : list Ticket * list Ticket * list nat :=
  let maxWinners := AIRDROP_REWARD_UNITS in
  let newPick := (NEW_PICK `min` (maxWinners `min` length newTickets))%nat in
  let '(newWinners, rs1) :=
    if bool_decide (0 < newPick)%nat
    then pickWithoutReplacement newTickets newPick rs else ([], rs) in
  let newWinnerUserIds : gset Z := list_to_set (map t_user newWinners) in
  let oldFiltered :=
    if bool_decide (size newWinnerUserIds ≠ 0%nat)
    then List.filter (λ t, negb (bool_decide (t_user t ∈ newWinnerUserIds))) oldTickets
    else oldTickets in
  let remaining := (maxWinners - length newWinners)%nat in
  let oldPick := (OLD_PICK `min` (remaining `min` length oldFiltered))%nat in
  let '(oldWinners, rs2) :=
    if bool_decide (0 < oldPick)%nat
    then pickWithoutReplacement oldFiltered oldPick rs1 else ([], rs1) in
  (oldWinners, newWinners, rs2).

(** How the server evaluates the two assignments of the position UPDATE:
    all from the old row, or left to right so that the CASE reads the
    [credited_usdt] just written (MySQL's single-table UPDATE). *)
Inductive UpdateEval := Simultaneous | LeftToRight.

(** [UPDATE staking_positions SET credited_usdt = LEAST(cap_usdt,
    credited_usdt + ?), status = CASE WHEN credited_usdt + ? >= cap_usdt THEN
    'completed' ELSE 'active' END] *)
Definition credit_position (sem : UpdateEval) (creditAmt : Q) (p : Position) : Position :=
  let credited' := Qmin' (p_cap_usdt p) (p_credited_usdt p + creditAmt) in
  let seen := match sem with
              | Simultaneous => p_credited_usdt p
              | LeftToRight => credited'
              end in
  {| p_user := p_user p; p_units := p_units p;
     p_unit_amount_usdt := p_unit_amount_usdt p; p_amount_usdt := p_amount_usdt p;
     p_cap_multiplier := p_cap_multiplier p; p_cap_usdt := p_cap_usdt p;
     p_credited_usdt := credited';
     p_status := if Qle_bool (p_cap_usdt p) (seen + creditAmt)
                 then PCompleted else PActive |}.

(** [creditAmt = Math.min(perWin, capLeft)] *)
Definition creditAmt_of (p : Position) : Q :=
  Qmin' (per_unit p) (Qmax' 0 (p_cap_usdt p - p_credited_usdt p)).

(** The body of the loop over the winners of a round; [ensured] is the set of
    users whose USDT balance row was already created. *)
Definition payout (sem : UpdateEval) (airdropId : Z) (st : gset Z * Db) (w : Ticket)
    : gset Z * Db :=
  let '(ensured, db) := st in
  let db1 := if bool_decide (t_user w ∈ ensured) then db
             else ensure_balance (t_user w) "USDT" db in
  let ensured' := ensured ∪ {[t_user w]} in
  match positions db1 !! t_position w with
  | None => (ensured', db1)
  | Some pos =>
    if negb (bool_decide (p_status pos = PActive)) then (ensured', db1)
    else
      let creditAmt := creditAmt_of pos in
      if Qle_bool creditAmt 0 then (ensured', db1)
      else
        let db2 := update_balance (t_user w) "USDT" creditAmt db1 in
        let recipientId := next_id (recipients db2) in
        let db3 :=
          set_recipients (λ l, l ++ [{| r_id := recipientId; r_airdrop := airdropId;
                                        r_user := t_user w;
                                        r_position := t_position w;
                                        r_amount_usdt := creditAmt |}]) db2 in
        let db4 := insert_ledger (t_user w) "USDT" None "transfer_in" creditAmt
                                 (RefNum recipientId) db3 in
        (ensured',
         set_positions (alter (credit_position sem creditAmt) (t_position w)) db4)
  end.

Definition payouts (sem : UpdateEval) (airdropId : Z) (winners : list Ticket) (db : Db) : Db :=
  (fold_left (payout sem airdropId) winners (∅, db)).2.

(** One iteration [p] of the loop over the pending rounds. *)
Definition airdrop_round (sem : UpdateEval) (totalUnitsEver roundsPending : Z)
    (st : Db * list nat) (p : Z) : Db * list nat :=
  let '(db, rs) := st in
  let roundsDone := Z.of_nat (length (airdrops db)) in
  let newEnd := totalUnitsEver - (roundsPending - p) * AIRDROP_TRIGGER_UNITS in
  let prevUnits := Z.max 0 (newEnd - AIRDROP_TRIGGER_UNITS) in
  let airdropId := next_id (airdrops db) in
  let db1 :=
    set_airdrops (λ l, l ++ [{| a_id := airdropId; a_round := roundsDone + 1;
                                a_trigger_units := newEnd;
                                a_airdrop_units := Z.of_nat AIRDROP_REWARD_UNITS |}]) db in
  let '(oldTickets, newTickets) := buildCohortsConsumed db1 prevUnits in
  let '(oldWinners, newWinners, rs') := select_winners oldTickets newTickets rs in
  (payouts sem airdropId (oldWinners ++ newWinners) db1, rs').

(** [triggerAirdropsIfNeeded], with the advisory lock granted. *)
Definition triggerAirdropsIfNeeded (sem : UpdateEval) (rs : list nat) (db : Db) : Db :=
  let totalUnitsEver :=
    map_fold (λ _ (p : Position) acc, p_units p + acc) 0 (positions db) in
  let roundsDone := Z.of_nat (length (airdrops db)) in
  let targetRounds := totalUnitsEver `div` AIRDROP_TRIGGER_UNITS in
  if bool_decide (targetRounds ≤ roundsDone) then db
  else
    let roundsPending := targetRounds - roundsDone in
    (fold_left (airdrop_round sem totalUnitsEver roundsPending)
               (map (λ i, Z.of_nat i + 1) (seq 0 (Z.to_nat roundsPending)))
               (db, rs)).1.

(** ** Wallet swap and transfer (server) *)

(** [normAsset]: MHV is an alias of VPK (the argument is already trimmed and
    upper-cased). *)
Definition normAsset (a : string) : string :=
  if bool_decide (a = "MHV") then "VPK" else a.

Definition RATE_USDT_TO_VPK : Q := 100.
Definition RATE_VPK_TO_USDT : Q := 1 / RATE_USDT_TO_VPK.

(** The tolerance [1e-9] of the swap's balance check. *)
Definition SWAP_EPSILON : Q := 1 # 1000000000.

Inductive SwapResult :=
| SwapBadAmount
| SwapPairNotSupported
| SwapInsufficientFunds (balance : Q)
| SwapOk (to_amount : Q).

(** POST /v1/wallet/swap *)
Definition wallet_swap (userId : Z) (from_asset to_asset : string) (fromAmount : Q)
    (db : Db) : SwapResult * Db :=
  let fromAsset := normAsset from_asset in
  let toAsset := normAsset to_asset in
  if Qle_bool fromAmount 0 then (SwapBadAmount, db)
  else
    let creditAmount :=
      if bool_decide (fromAsset = "USDT") && bool_decide (toAsset = "VPK")
      then Some (fromAmount * RATE_USDT_TO_VPK)%Q
      else if bool_decide (fromAsset = "VPK") && bool_decide (toAsset = "USDT")
      then Some (fromAmount * RATE_VPK_TO_USDT)%Q
      else None in
    match creditAmount with
    | None => (SwapPairNotSupported, db)
    | Some creditAmount =>
      let currentBal := balance_of db userId fromAsset in
      if Qlt_bool (currentBal + SWAP_EPSILON) fromAmount
      then (SwapInsufficientFunds currentBal, db)
      else
        let db1 := upsert_balance userId fromAsset (- fromAmount) db in
        let db2 := upsert_balance userId toAsset creditAmount db1 in
        let db3 := insert_ledger userId fromAsset (Some "BSC") "swap_out"
                                 fromAmount RefNull db2 in
        (SwapOk creditAmount,
         insert_ledger userId toAsset (Some "BSC") "swap_in" creditAmount RefNull db3)
    end.

Inductive TransferKind := KCrypto | KBank.

Inductive TransferResult :=
| TransferBadQuote
| TransferInsufficientFunds (needed balance : Q)
| TransferOk.

(** POST /v1/wallet/transfer, from the quote on. The asset is USDT (any other
    is refused before); [totalDebit] is the quote's [total_debit_usdt]. *)
Definition wallet_transfer (now userId : Z) (kind : TransferKind) (chainNorm : string)
    (totalDebit : Q) (db : Db) : TransferResult * Db :=
  let assetNorm := "USDT" in
  if Qle_bool totalDebit 0 then (TransferBadQuote, db)
  else
    let currentBal := balance_of db userId assetNorm in
    if Qlt_bool currentBal totalDebit
    then (TransferInsufficientFunds totalDebit currentBal, db)
    else
      let db1 := upsert_balance userId assetNorm (- totalDebit) db in
      let ledgerType := match kind with
                        | KCrypto => "transfer_out"
                        | KBank => "withdraw"
                        end in
      let db2 := insert_ledger userId assetNorm (Some chainNorm) ledgerType
                               (- totalDebit) RefNull db1 in
      (TransferOk, evaluateRewardCreditsForUser now userId db2).

(** ** Referral engine (routes/referrals.js) *)

Record RefConfig := {
  REF_CONVERSION_RATE : Q;
  REF_STAKING_RATE : Q;
  REF_COMPANY_USER_ID : Z
}.

Definition LVL1_SHARE : Q := 45 # 10.
Definition LVL2_SHARE : Q := 25 # 10.
Definition LVL3_SHARE : Q := 15 # 10.
Definition COMPANY_SHARE : Q := 15 # 10.

(** [id || null]: a missing or zero id is no recipient. *)
Definition truthy_id (o : option Z) : option Z :=
  match o with
  | Some n => if bool_decide (n = 0) then None else Some n
  | None => None
  end.

(** [referrer_id] of the user [id], through the LEFT JOINs of the chain query. *)
Definition referrer_of (db : Db) (id : option Z) : option Z :=
  match id with
  | Some i =>
      match List.find (λ u, bool_decide (u_id u = i)) (users db) with
      | Some u => u_referrer u
      | None => None
      end
  | None => None
  end.

(** The three levels of the upline of a referee: [u0.referrer_id],
    [u1.referrer_id], [u2.referrer_id], each through [|| null]. *)
Definition lvl1_of (db : Db) (refereeId : Z) : option Z :=
  truthy_id (referrer_of db (Some refereeId)).
Definition lvl2_of (db : Db) (refereeId : Z) : option Z :=
  truthy_id (referrer_of db (referrer_of db (Some refereeId))).
Definition lvl3_of (db : Db) (refereeId : Z) : option Z :=
  truthy_id (referrer_of db (referrer_of db (referrer_of db (Some refereeId)))).

(** The company recipient: configured when [REF_COMPANY_USER_ID > 0]. *)
Definition company_of (cfg : RefConfig) : option Z :=
  if bool_decide (0 < REF_COMPANY_USER_ID cfg)
  then Some (REF_COMPANY_USER_ID cfg) else None.

(** [totalRate = (t === 'conversion') ? REF_CONVERSION_RATE : REF_STAKING_RATE] *)
Definition total_rate (cfg : RefConfig) (t : RefType) : Q :=
  match t with
  | Conversion => REF_CONVERSION_RATE cfg
  | StakingReward => REF_STAKING_RATE cfg
  end.

(** The decimal places of [calcShare]: 2 for PHP, 8 otherwise. *)
Definition share_scale (a : string) : Q :=
  if bool_decide (a = "PHP") then 100 else 100000000.

(** [calcShare(weight)] *)
Definition calcShare (a : string) (pool totalEffectiveWeight weight : Q) : Q :=
  let raw := (pool * (weight / totalEffectiveWeight))%Q in
  (inject_Z (js_round (raw * share_scale a)) / share_scale a)%Q.

Record NewEvent := {
  ne_referrer : Z;
  ne_commission : Q;
  ne_level : Level
}.

(** The event of one level: built when the recipient exists and the share is
    positive. *)
Definition level_event (a : string) (pool total : Q) (id : option Z) (w : Q)
    (lvl : Level) : list NewEvent :=
  match id with
  | Some i =>
      if Qeq_bool w 0 then []
      else
        let c := calcShare a pool total w in
        if Qlt_bool 0 c
        then [{| ne_referrer := i; ne_commission := c; ne_level := lvl |}]
        else []
  | None => []
  end.

Definition is_none {A} (o : option A) : bool :=
  match o with None => true | Some _ => false end.

(** The weight of the company: its own share plus the share of every absent
    level. *)
Definition company_weight (lvl1Id lvl2Id lvl3Id : option Z) : Q :=
  (COMPANY_SHARE
   + (if is_none lvl1Id then LVL1_SHARE else 0)
   + (if is_none lvl2Id then LVL2_SHARE else 0)
   + (if is_none lvl3Id then LVL3_SHARE else 0))%Q.

Definition totalEffectiveWeight (lvl1Id lvl2Id lvl3Id companyId : option Z) : Q :=
  ((if is_none lvl1Id then 0 else LVL1_SHARE)
   + (if is_none lvl2Id then 0 else LVL2_SHARE)
   + (if is_none lvl3Id then 0 else LVL3_SHARE)
   + (if is_none companyId then 0 else company_weight lvl1Id lvl2Id lvl3Id))%Q.

(** The array [events] of [awardReferral]. *)
Definition build_events (a : string) (pool : Q) (lvl1Id lvl2Id lvl3Id companyId : option Z)
    : list NewEvent :=
  let total := totalEffectiveWeight lvl1Id lvl2Id lvl3Id companyId in
  level_event a pool total lvl1Id LVL1_SHARE Lvl1 ++
  level_event a pool total lvl2Id LVL2_SHARE Lvl2 ++
  level_event a pool total lvl3Id LVL3_SHARE Lvl3 ++
  level_event a pool total companyId (company_weight lvl1Id lvl2Id lvl3Id) LvlCompany.

Definition same_event (refereeId : Z) (t : RefType) (src : string) (e : RefEvent) : bool :=
  bool_decide (e_referee e = refereeId) && bool_decide (e_type e = t) &&
  bool_decide (e_source_ref e = src).

(** Modelled from the spec: the unique index of [referral_events] on
    (referee_id, referrer_id, type, source_ref), declared by the schema, which
    is not among the sources. [INSERT IGNORE] drops the row that collides with
    it and reports no affected row. *)
Definition insert_ignore_event (refereeId : Z) (t : RefType) (a : string) (amt : Q)
    (src : string) (ev : NewEvent) (rows : list RefEvent) : list RefEvent :=
  if existsb (λ e, same_event refereeId t src e &&
                   bool_decide (e_referrer e = ne_referrer ev)) rows
  then rows
  else rows ++ [{| e_id := next_id rows; e_referee := refereeId;
                   e_referrer := ne_referrer ev; e_type := t; e_asset := a;
                   e_base_amount := amt; e_commission := ne_commission ev;
                   e_status := EvPending; e_source_ref := src;
                   e_level := ne_level ev; e_claim := None |}].

Inductive AwardResult :=
| AwardRefused (reason : string)
| AwardOk (duplicate : bool) (inserted : nat).

(** [awardReferral(db, { refereeId, type, asset, baseAmount, sourceRef })].
    [type] is [None] for a string that is not a valid type; [src] is the
    source_ref after normalisation (the given one, or the one derived from
    the meta). *)
Definition awardReferral (cfg : RefConfig) (refereeId : Z) (type : option RefType)
    (asset : string) (baseAmount : Q) (src : string) (db : Db) : AwardResult * Db :=
  let a := if bool_decide (asset = "PHP") then "PHP" else "USDT" in
  let amt := baseAmount in
  match type with
  | None => (AwardRefused "BAD_INPUT", db)
  | Some t =>
    if Qle_bool amt 0 then (AwardRefused "BAD_INPUT", db)
    else
      let lvl1Id := lvl1_of db refereeId in
      let lvl2Id := lvl2_of db refereeId in
      let lvl3Id := lvl3_of db refereeId in
      let companyId := company_of cfg in
      if is_none lvl1Id && is_none lvl2Id && is_none lvl3Id && is_none companyId
      then (AwardRefused "NO_RECIPIENTS", db)
      else
        let totalRate := total_rate cfg t in
        if Qle_bool totalRate 0 then (AwardRefused "NO_RATE", db)
        else
          let pool := (amt * totalRate)%Q in
          if Qle_bool pool 0 then (AwardRefused "NO_COMMISSION", db)
          else
            let existing := List.filter (same_event refereeId t src) (events db) in
            let existingSet : gset Z := list_to_set (map e_referrer existing) in
            if Qle_bool (totalEffectiveWeight lvl1Id lvl2Id lvl3Id companyId) 0
            then (AwardRefused "NO_EFFECTIVE_WEIGHTS", db)
            else
              let evs := build_events a pool lvl1Id lvl2Id lvl3Id companyId in
              match evs with
              | [] => (AwardRefused "NO_COMMISSION_EVENTS", db)
              | _ =>
                let rows' :=
                  fold_left (λ rows ev,
                               if bool_decide (ne_referrer ev ∈ existingSet) then rows
                               else insert_ignore_event refereeId t a amt src ev rows)
                            evs (events db) in
                let inserted := (length rows' - length (events db))%nat in
                (AwardOk (bool_decide (inserted = 0%nat) &&
                          negb (bool_decide (length existing = 0%nat))) inserted,
                 set_events (λ _, rows') db)
              end
  end.

Inductive ReferralClaimResult :=
| RefClaimMinNotMet
| RefClaimOk (claimId : Z) (creditedUSDT : Q) (eventsClaimed : nat).

Definition pending_of (userId : Z) (e : RefEvent) : bool :=
  bool_decide (e_referrer e = userId) && bool_decide (e_status e = EvPending).

Definition pending_total (userId : Z) (a : string) (db : Db) : Q :=
  sumQ (map e_commission
            (List.filter (λ e, pending_of userId e && bool_decide (e_asset e = a))
                         (events db))).

(** POST /v1/referrals/claim *)
Definition referral_claim (USDT_PHP_RATE minPHP minUSDT : Q) (userId : Z) (db : Db)
    : ReferralClaimResult * Db :=
  let evRows := List.filter (pending_of userId) (events db) in
  let pendingPHP := pending_total userId "PHP" db in
  let pendingUSDT := pending_total userId "USDT" db in
  if Qlt_bool pendingPHP minPHP && Qlt_bool pendingUSDT minUSDT
  then (RefClaimMinNotMet, db)
  else
    let addUsdt :=
      (pendingUSDT + (if Qlt_bool 0 pendingPHP then pendingPHP / USDT_PHP_RATE else 0))%Q in
    let claimId := next_id (claims db) in
    let db1 := set_claims (λ l, l ++ [(userId, addUsdt)]) db in
    let db2 :=
      set_events (map (λ e, if pending_of userId e
                            then {| e_id := e_id e; e_referee := e_referee e;
                                    e_referrer := e_referrer e; e_type := e_type e;
                                    e_asset := e_asset e;
                                    e_base_amount := e_base_amount e;
                                    e_commission := e_commission e;
                                    e_status := EvCredited;
                                    e_source_ref := e_source_ref e;
                                    e_level := e_level e; e_claim := Some claimId |}
                            else e)) db1 in
    let db3 := upsert_balance userId "USDT" addUsdt db2 in
    (RefClaimOk claimId addUsdt (length evRows),
     insert_ledger userId "USDT" None "referral_bonus" addUsdt (RefNum claimId) db3).

(** * Vocabulary of the properties, and the databases of the examples *)

(** ** Projection and signed sum *)

(** No projection drift: every stored balance equals the signed sum of the
    ledger rows of its (user, asset). *)
Definition consistent (db : Db) : Prop :=
  ∀ u a, (balance_of db u a == ledger_sum db u a)%Q.

(** The contribution of one ledger row to the signed sum of [(u, a)]. *)
Definition contribution (u : Z) (a : string) (r : LedgerRow) : Q :=
  if row_of u a r then signed r else 0%Q.

(** The users of [ensured] have a USDT balance row. *)
Definition ensured_ok (ensured : gset Z) (db : Db) : Prop :=
  ∀ u, u ∈ ensured → is_Some (balances db !! (u, "USDT")).

(** The balance-mutating operations as one transition system. The sweeper
    enters with the processing of one selected row. *)
Inductive Op :=
| OpDepositCredit (evaluate : bool) (now depositId : Z) (amount : option Q)
| OpSweeperRow (MIN_DEPOSIT : Q) (env : SweepEnv) (id : Z) (d : Deposit)
| OpStakeOpen (userId : Z) (amount units cap_multiplier : option Q)
| OpAirdrops (sem : UpdateEval) (rs : list nat)
| OpReferralClaim (rate minPHP minUSDT : Q) (userId : Z)
| OpRewardClaim (now userId creditId : Z)
| OpSwap (userId : Z) (from_asset to_asset : string) (amount : Q)
| OpTransfer (now userId : Z) (kind : TransferKind) (chain : string) (totalDebit : Q).

Definition run (db : Db) (op : Op) : Db :=
  match op with
  | OpDepositCredit ev now id amount => (creditDepositAndWebhook ev now id amount db).2
  | OpSweeperRow m env id d => sweeper_process m env id d db
  | OpStakeOpen u amount units mult => (stake_open u amount units mult db).2
  | OpAirdrops sem rs => triggerAirdropsIfNeeded sem rs db
  | OpReferralClaim rate minP minU u => (referral_claim rate minP minU u db).2
  | OpRewardClaim now u k => (claimCredit now u k db).2
  | OpSwap u fa ta amt => (wallet_swap u fa ta amt db).2
  | OpTransfer now u kind chain d => (wallet_transfer now u kind chain d db).2
  end.

Definition is_transfer (op : Op) : bool :=
  match op with
  | OpTransfer _ _ _ _ _ => true
  | _ => false
  end.

(** ** Deposits *)

(** A database with one deposit intent of user 7, not yet credited. *)
Definition intent_db : Db :=
  set_deposits
    (insert 1 {| d_user := 7; d_asset := "USDT"; d_chain := "BSC";
                 d_source := None; d_amount_received := None;
                 d_confirmations := Some 12; d_required := 12;
                 d_status := DConfirming; d_swept := false |})
    empty_db.


(** An intent of user 7 on which nothing was seen yet, as the watcher selects
    it, and the database that holds it as intent 1. *)
Definition pending_intent : Deposit :=
  {| d_user := 7; d_asset := "USDT"; d_chain := "BSC"; d_source := None;
     d_amount_received := None; d_confirmations := None; d_required := 12;
     d_status := DPending; d_swept := false |}.

Definition pending_db : Db := set_deposits (insert 1 pending_intent) empty_db.

(** User 7 after the manual credit of 100 USDT on intent 1. *)
Definition funded_db : Db :=
  (creditDepositAndWebhook false 0 1 (Some 100%Q) intent_db).2.


(** The ledger rows of type deposit that refer to one intent. *)
Definition deposit_rows (id : Z) (db : Db) : list LedgerRow :=
  List.filter (is_deposit_row id) (ledger db).

(** ** System-issued debits *)







(** ** Staking *)

(** A wallet of 900 VPK for user 7. *)
Definition staker_db : Db := set_balances (insert (7, "VPK") 900%Q) empty_db.

(** Any sequence of payouts: each step credits one winning ticket, in any
    round and with any set of balance rows already ensured. *)
Inductive payout_steps (sem : UpdateEval) : Db → Db → Prop :=
| payout_steps_refl db : payout_steps sem db db
| payout_steps_step db aid ens w db' :
    payout_steps sem (payout sem aid (ens, db) w).2 db' →
    payout_steps sem db db'.

(** A payout that targets a position credits nothing and changes nothing:
    positions, ledger and recipients stay as they are and every balance reads
    the same. *)
Definition payout_changes_nothing (sem : UpdateEval) (db : Db) (id : Z) : Prop :=
  ∀ aid ens w, t_position w = id →
    positions (payout sem aid (ens, db) w).2 = positions db ∧
    ledger (payout sem aid (ens, db) w).2 = ledger db ∧
    recipients (payout sem aid (ens, db) w).2 = recipients db ∧
    ∀ u a, balance_of (payout sem aid (ens, db) w).2 u a = balance_of db u a.

(** A position of one unit at the default multiplier (cap 27) and the single
    payout that completes it. *)
Definition one_unit_db : Db := (stake_open 7 None (Some 1%Q) None staker_db).2.

(** A wallet of 9000 VPK staked as one position of 10 units (cap 270), and
    the position after [n] winning draws. *)
Definition ten_units_db : Db :=
  (stake_open 7 None (Some 10%Q) None
     (set_balances (insert (7, "VPK") 9000%Q) empty_db)).2.

Definition after_wins (sem : UpdateEval) (n : nat) : Db :=
  payouts sem 1 (repeat {| t_position := 1; t_user := 7 |} n) ten_units_db.

(** The credited total (in lowest terms) and the status of a position. *)
Definition position_state (db : Db) (id : Z) : option (Q * PositionStatus) :=
  (λ p, (Qred (p_credited_usdt p), p_status p)) <$> positions db !! id.

(** The number of tickets of each of two users in a pool. *)
Definition tickets_by_user (u1 u2 : Z) (pool : list Ticket) : nat * nat :=
  (length (List.filter (λ t, bool_decide (t_user t = u1)) pool),
   length (List.filter (λ t, bool_decide (t_user t = u2)) pool)).

(** Two positions, of 50 and of 20 units, opened in this order. *)
Definition two_stakers_db : Db :=
  (stake_open 8 None (Some 20%Q) None
     (stake_open 7 None (Some 50%Q) None
        (set_balances (insert (8, "VPK") 18000%Q)
           (set_balances (insert (7, "VPK") 45000%Q) empty_db))).2).2.

Definition one_unit_position : Position :=
  {| p_user := 7; p_units := 1; p_unit_amount_usdt := STAKE_UNIT_USDT;
     p_amount_usdt := inject_Z 1 * STAKE_UNIT_USDT; p_cap_multiplier := DEFAULT_MULT;
     p_cap_usdt := inject_Z 1 * STAKE_UNIT_USDT * DEFAULT_MULT;
     p_credited_usdt := 0; p_status := PActive |}.

Definition one_unit_paid (sem : UpdateEval) : Db :=
  (payout sem 1 (∅, one_unit_db) {| t_position := 1; t_user := 7 |}).2.

(** The old pool after the users drawn from the new pool are taken out. *)
Definition old_filtered (newWinners oldTickets : list Ticket) : list Ticket :=
  List.filter (λ t, negb (bool_decide
                 (t_user t ∈ (list_to_set (map t_user newWinners) : gset Z))))
              oldTickets.

(** What every ticket of a pool stands for: an active position of its user
    with unconsumed capacity. *)
Definition ticket_backed (db : Db) (t : Ticket) : Prop :=
  ∃ p, positions db !! t_position t = Some p ∧ p_user p = t_user t ∧
       p_status p = PActive ∧ 0 < capacity_units p.

(** ** Referral commissions *)




(** The beneficiary rows of one event, and what they say. *)
Definition event_rows (refereeId : Z) (t : RefType) (src : string) (db : Db)
    : list RefEvent :=
  List.filter (same_event refereeId t src) (events db).




(** The default rates, with user 5 as the company wallet. *)
Definition referral_cfg : RefConfig :=
  {| REF_CONVERSION_RATE := 5 # 1000; REF_STAKING_RATE := 10 # 100;
     REF_COMPANY_USER_ID := 5 |}.

(** The referee 9 was referred by user 8, who has no referrer. *)
Definition one_level_db : Db :=
  {| balances := ∅; ledger := []; deposits := ∅; positions := ∅; airdrops := [];
     recipients := [];
     users := [{| u_id := 5; u_referrer := None |};
               {| u_id := 8; u_referrer := None |};
               {| u_id := 9; u_referrer := Some 8 |}];
     credits := ∅; events := []; claims := [] |}.


(** ** Reward credits *)



(** Conditions that ask for 2 qualified referrals and nothing else. *)
Definition two_referrals : Conditions :=
  {| deposit_usdt_min := None; depositUsdtMin := None; deposit_source := None;
     depositSource := None; referrals_min := Some 2%Q; referralsMin := None;
     referee_deposit_usdt_min := None; refereeDepositUsdtMin := None;
     referral_deposit_usdt_min := None; referralDepositUsdtMin := None;
     referee_deposit_source := None; refereeDepositSource := None |}.

Definition deposit_row (id user : Z) (amt : Q) : LedgerRow :=
  {| l_id := id; l_user := user; l_asset := "USDT"; l_chain := Some "BSC";
     l_type := "deposit"; l_amount := amt; l_ref := RefNum id |}.

(** User 1 referred users 2 and 3 and holds credit 1, which asks for 2
    qualified referrals; user 2 deposited 10 USDT and user 3 deposited 5. *)
Definition locked_credit : Credit :=
  {| c_user := 1; c_amount_usdt := 5; c_conditions := two_referrals;
     c_progress := None; c_status := CLocked; c_expires_at := None;
     c_claimable_at := None; c_claimed_at := None |}.

Definition one_qualified_db : Db :=
  {| balances := ∅; ledger := [deposit_row 1 2 10; deposit_row 2 3 5];
     deposits := ∅; positions := ∅; airdrops := []; recipients := [];
     users := [{| u_id := 1; u_referrer := None |};
               {| u_id := 2; u_referrer := Some 1 |};
               {| u_id := 3; u_referrer := Some 1 |}];
     credits := {[ 1 := locked_credit ]}; events := []; claims := [] |}.

(** The same after user 3 deposited another 5 USDT. *)
Definition two_qualified_db : Db :=
  set_ledger (λ l, l ++ [deposit_row 3 3 5]) one_qualified_db.






(** * Properties *)

(** ** Rational helpers *)

Lemma Qle_bool_true x y : Qle_bool x y = true ↔ (x <= y)%Q.
Proof. apply Qle_bool_iff. Qed.

Lemma Qle_bool_false x y : Qle_bool x y = false ↔ (y < x)%Q.
Proof.
  split; intros H.
  - apply Qnot_le_lt. intros Hle. apply Qle_bool_iff in Hle. congruence.
  - destruct (Qle_bool x y) eqn:E; [|done].
    apply Qle_bool_iff in E. exfalso. apply (Qlt_not_le _ _ H E).
Qed.


Lemma Qlt_bool_false x y : Qlt_bool x y = false ↔ (y <= x)%Q.
Proof.
  unfold Qlt_bool. rewrite negb_false_iff. apply Qle_bool_true.
Qed.

Lemma Qmin'_spec x y :
  ((x <= y)%Q ∧ Qmin' x y = x) ∨ ((y < x)%Q ∧ Qmin' x y = y).
Proof.
  unfold Qmin'. destruct (Qle_bool x y) eqn:E.
  - left. split; [by apply Qle_bool_true | done].
  - right. split; [by apply Qle_bool_false | done].
Qed.

Lemma Qmax'_spec x y :
  ((x <= y)%Q ∧ Qmax' x y = y) ∨ ((y < x)%Q ∧ Qmax' x y = x).
Proof.
  unfold Qmax'. destruct (Qle_bool x y) eqn:E.
  - left. split; [by apply Qle_bool_true | done].
  - right. split; [by apply Qle_bool_false | done].
Qed.

Lemma sumQ_app l1 l2 : (sumQ (l1 ++ l2) == sumQ l1 + sumQ l2)%Q.
Proof.
  induction l1 as [|x l1 IH]; simpl.
  - lra.
  - rewrite IH. lra.
Qed.

(** ** Ledger store: the projection and the signed sum *)

Lemma ledger_sum_snoc db u a r f :
  ledger (f db) = ledger db ++ [r] →
  (ledger_sum (f db) u a == ledger_sum db u a + contribution u a r)%Q.
Proof.
  intros E. unfold ledger_sum, contribution. rewrite E.
  rewrite List.filter_app, map_app, sumQ_app. simpl.
  destruct (row_of u a r); simpl; lra.
Qed.

Lemma ledger_sum_insert u a ch ty amt ref db u' a' :
  (ledger_sum (insert_ledger u a ch ty amt ref db) u' a'
   == ledger_sum db u' a' +
      contribution u' a' {| l_id := next_id (ledger db); l_user := u; l_asset := a;
                            l_chain := ch; l_type := ty; l_amount := amt;
                            l_ref := ref |})%Q.
Proof. apply (ledger_sum_snoc db u' a' _ (insert_ledger u a ch ty amt ref)). done. Qed.

Lemma ledger_sum_same_ledger db db' u a :
  ledger db' = ledger db → ledger_sum db' u a = ledger_sum db u a.
Proof. unfold ledger_sum. by intros ->. Qed.

Lemma balance_of_same_balances db db' u a :
  balances db' = balances db → balance_of db' u a = balance_of db u a.
Proof. unfold balance_of. by intros ->. Qed.

Lemma balance_of_upsert u a v db u' a' :
  (balance_of (upsert_balance u a v db) u' a'
   == balance_of db u' a' + (if bool_decide ((u, a) = (u', a')) then v else 0))%Q.
Proof.
  unfold balance_of, upsert_balance. simpl.
  case_bool_decide as E.
  - inversion E; subst.
    destruct (balances db !! (u', a')) eqn:L; rewrite lookup_insert_eq; simpl; lra.
  - destruct (balances db !! (u, a)) eqn:L; rewrite lookup_insert_ne by done; lra.
Qed.

Lemma balance_of_ensure u a db u' a' :
  balance_of (ensure_balance u a db) u' a' = balance_of db u' a'.
Proof.
  unfold balance_of, ensure_balance. simpl.
  destruct (balances db !! (u, a)) eqn:L; [done|].
  destruct (decide ((u, a) = (u', a'))) as [E|E].
  - inversion E; subst. rewrite lookup_insert_eq, L. done.
  - by rewrite lookup_insert_ne.
Qed.

Lemma ensure_balance_is_Some u a db :
  is_Some (balances (ensure_balance u a db) !! (u, a)).
Proof.
  unfold ensure_balance. simpl.
  destruct (balances db !! (u, a)) eqn:L.
  - rewrite L. eauto.
  - rewrite lookup_insert_eq. eauto.
Qed.

Lemma balance_of_update u a v db u' a' :
  is_Some (balances db !! (u, a)) →
  (balance_of (update_balance u a v db) u' a'
   == balance_of db u' a' + (if bool_decide ((u, a) = (u', a')) then v else 0))%Q.
Proof.
  intros [b Hb]. unfold balance_of, update_balance. simpl.
  case_bool_decide as E.
  - inversion E; subst. rewrite lookup_alter_eq, Hb. simpl. lra.
  - rewrite lookup_alter_ne by done. lra.
Qed.

Lemma contribution_credit u a ch ty amt ref id u' a' :
  ty ∉ MINUS →
  (contribution u' a' {| l_id := id; l_user := u; l_asset := a; l_chain := ch;
                         l_type := ty; l_amount := amt; l_ref := ref |}
   == (if bool_decide ((u, a) = (u', a')) then amt else 0))%Q.
Proof.
  intros Hty. unfold contribution, row_of, signed. simpl.
  repeat case_bool_decide; simpl; try lra; naive_solver.
Qed.

Lemma contribution_debit u a ch ty amt ref id u' a' :
  ty ∈ MINUS → ty ∉ PLUS →
  (contribution u' a' {| l_id := id; l_user := u; l_asset := a; l_chain := ch;
                         l_type := ty; l_amount := amt; l_ref := ref |}
   == (if bool_decide ((u, a) = (u', a')) then - amt else 0))%Q.
Proof.
  intros Hm Hp. unfold contribution, row_of, signed. simpl.
  repeat case_bool_decide; simpl; try lra; naive_solver.
Qed.

(** Membership of a literal type in a classification set, by computation. *)
Ltac classify :=
  match goal with
  | |- _ ∈ _ => apply (bool_decide_unpack _); vm_compute; exact I
  | |- _ ∉ _ =>
      let H := fresh in
      intros H; apply (bool_decide_pack _) in H; vm_compute in H; exact H
  end.

Lemma consistent_ext db db' :
  balances db' = balances db → ledger db' = ledger db →
  consistent db → consistent db'.
Proof.
  intros Hb Hl Hc u a.
  rewrite (balance_of_same_balances db db') by done.
  rewrite (ledger_sum_same_ledger db db') by done. apply Hc.
Qed.

(** A credit: the balance goes up by the amount the appended row carries. *)
Lemma consistent_credit u a ch ty v ref db :
  ty ∉ MINUS → consistent db →
  consistent (insert_ledger u a ch ty v ref (upsert_balance u a v db)).
Proof.
  intros Hty Hc u' a'.
  rewrite ledger_sum_insert, contribution_credit by done.
  rewrite (balance_of_same_balances (upsert_balance u a v db)) by done.
  rewrite balance_of_upsert.
  rewrite (ledger_sum_same_ledger db (upsert_balance u a v db)) by done.
  rewrite (Hc u' a'). lra.
Qed.

(** A debit: the balance goes down by the amount the appended row carries. *)
Lemma consistent_debit u a ch ty v ref db :
  ty ∈ MINUS → ty ∉ PLUS → consistent db →
  consistent (insert_ledger u a ch ty v ref (upsert_balance u a (- v) db)).
Proof.
  intros Hm Hp Hc u' a'.
  rewrite ledger_sum_insert, contribution_debit by done.
  rewrite (balance_of_same_balances (upsert_balance u a (- v) db)) by done.
  rewrite balance_of_upsert.
  rewrite (ledger_sum_same_ledger db (upsert_balance u a (- v) db)) by done.
  rewrite (Hc u' a'). lra.
Qed.

Lemma consistent_empty : consistent empty_db.
Proof. intros u a. reflexivity. Qed.

Lemma evaluate_balances now u db :
  balances (evaluateRewardCreditsForUser now u db) = balances db.
Proof. done. Qed.

Lemma evaluate_ledger now u db :
  ledger (evaluateRewardCreditsForUser now u db) = ledger db.
Proof. done. Qed.

Lemma creditDeposit_consistent ev now id amount db :
  consistent db → consistent (creditDepositAndWebhook ev now id amount db).2.
Proof.
  intros Hc. unfold creditDepositAndWebhook.
  destruct (deposits db !! id) as [dep|]; [|done].
  destruct (existsb _ _); [done|].
  destruct (Qle_bool _ 0); [done|]. simpl.
  eapply consistent_ext; [| |eapply (consistent_credit (d_user dep) (d_asset dep)
    (Some (d_chain dep)) "deposit" _ (RefNum id)); [classify|exact Hc]];
    by destruct ev.
Qed.

Lemma sweeper_sweep_balances env id db :
  balances (sweeper_sweep env id db) = balances db
  ∧ ledger (sweeper_sweep env id db) = ledger db.
Proof. by destruct env. Qed.

Lemma sweeper_process_consistent m env id d db :
  consistent db → consistent (sweeper_process m env id d db).
Proof.
  intros Hc. unfold sweeper_process.
  destruct (_ && _ && _).
  - eapply consistent_ext; [apply sweeper_sweep_balances..|].
    destruct (match deposits db !! id with Some _ => _ | None => _ end).
    + eapply (consistent_credit _ _ _ "deposit"); [classify|].
      eapply consistent_ext; [..|exact Hc]; done.
    + eapply consistent_ext; [..|exact Hc]; done.
  - destruct (negb _); [done|]. destruct (negb _); [done|].
    eapply consistent_ext; [apply sweeper_sweep_balances..|done].
Qed.

Lemma consistent_stake_lock u v ref posId pos db :
  consistent db →
  consistent
    (insert_ledger u "VPK" None "stake_lock" v ref
       (set_positions (insert posId pos)
          (update_balance u "VPK" (- v) (ensure_balance u "VPK" db)))).
Proof.
  intros Hc u' a'.
  rewrite ledger_sum_insert, contribution_debit by classify.
  rewrite (balance_of_same_balances
             (update_balance u "VPK" (- v) (ensure_balance u "VPK" db))) by done.
  rewrite balance_of_update by apply ensure_balance_is_Some.
  rewrite balance_of_ensure.
  rewrite (ledger_sum_same_ledger db) by done.
  rewrite (Hc u' a'). lra.
Qed.

Lemma stake_open_consistent u amt units mult db :
  consistent db → consistent (stake_open u amt units mult db).2.
Proof.
  intros Hc. unfold stake_open.
  destruct amt, units; try done;
    (case_bool_decide; [done|]; destruct (Qlt_bool _ _); [done|];
     apply consistent_stake_lock, Hc).
Qed.

Lemma ensure_balance_keeps u a db k :
  is_Some (balances db !! k) → is_Some (balances (ensure_balance u a db) !! k).
Proof.
  unfold ensure_balance. simpl. intros H.
  destruct (balances db !! (u, a)) eqn:L; [done|].
  destruct (decide ((u, a) = k)) as [<-|Hne].
  - rewrite lookup_insert_eq. eauto.
  - by rewrite lookup_insert_ne.
Qed.

Lemma update_balance_keeps u a v db k :
  is_Some (balances db !! k) → is_Some (balances (update_balance u a v db) !! k).
Proof.
  unfold update_balance. simpl. intros H.
  destruct (decide ((u, a) = k)) as [<-|Hne].
  - rewrite lookup_alter_eq. destruct H as [b ->]. simpl. eauto.
  - by rewrite lookup_alter_ne.
Qed.

Lemma consistent_airdrop_credit sem u v ref rcp posId db :
  is_Some (balances db !! (u, "USDT")) → consistent db →
  consistent
    (set_positions (alter (credit_position sem v) posId)
       (insert_ledger u "USDT" None "transfer_in" v ref
          (set_recipients (λ l, l ++ [rcp]) (update_balance u "USDT" v db)))).
Proof.
  intros Hs Hc.
  apply (consistent_ext
           (insert_ledger u "USDT" None "transfer_in" v ref
              (set_recipients (λ l, l ++ [rcp]) (update_balance u "USDT" v db))));
    [done|done|].
  intros u' a'.
  rewrite ledger_sum_insert, contribution_credit by classify.
  rewrite (balance_of_same_balances (update_balance u "USDT" v db)) by done.
  rewrite balance_of_update by done.
  rewrite (ledger_sum_same_ledger db) by done.
  rewrite (Hc u' a'). lra.
Qed.

Lemma payout_consistent sem aid st w :
  consistent st.2 → ensured_ok st.1 st.2 →
  consistent (payout sem aid st w).2 ∧
  ensured_ok (payout sem aid st w).1 (payout sem aid st w).2.
Proof.
  destruct st as [ens db]. simpl. intros Hc He.
  unfold payout.
  set (db1 := if bool_decide (t_user w ∈ ens) then db
              else ensure_balance (t_user w) "USDT" db).
  assert (consistent db1) as Hc1.
  { subst db1. case_bool_decide; [done|].
    intros u a. rewrite balance_of_ensure.
    rewrite (ledger_sum_same_ledger db) by done. apply Hc. }
  assert (ensured_ok (ens ∪ {[t_user w]}) db1) as He1.
  { subst db1. intros u Hu. apply elem_of_union in Hu as [Hu|Hu].
    - case_bool_decide; [by apply He|]. by apply ensure_balance_keeps, He.
    - apply elem_of_singleton in Hu as ->.
      case_bool_decide; [by apply He|]. apply ensure_balance_is_Some. }
  destruct (positions db1 !! t_position w) as [pos|]; [|done].
  destruct (negb _); [done|].
  destruct (Qle_bool _ 0); [done|]. simpl. split.
  - apply consistent_airdrop_credit; [|done].
    apply He1. set_solver.
  - intros u Hu. simpl. by apply update_balance_keeps, He1.
Qed.

Lemma payouts_consistent sem aid ws db :
  consistent db → consistent (payouts sem aid ws db).
Proof.
  intros Hc. unfold payouts.
  assert (∀ st, consistent st.2 → ensured_ok st.1 st.2 →
                consistent (fold_left (payout sem aid) ws st).2) as H.
  { induction ws as [|w ws IH]; intros st H1 H2; simpl; [done|].
    destruct (payout_consistent sem aid st w H1 H2). by apply IH. }
  apply H; [done|]. intros u Hu. set_solver.
Qed.

Lemma airdrop_round_consistent sem total pending st p :
  consistent st.1 → consistent (airdrop_round sem total pending st p).1.
Proof.
  destruct st as [db rs]. simpl. intros Hc. unfold airdrop_round.
  destruct (buildCohortsConsumed _ _) as [oldT newT].
  destruct (select_winners oldT newT rs) as [[oldW newW] rs'].
  simpl. apply payouts_consistent.
  eapply consistent_ext; [..|exact Hc]; done.
Qed.

Lemma trigger_consistent sem rs db :
  consistent db → consistent (triggerAirdropsIfNeeded sem rs db).
Proof.
  intros Hc. unfold triggerAirdropsIfNeeded.
  case_bool_decide; [done|].
  generalize (map (λ i, Z.of_nat i + 1)
                (seq 0 (Z.to_nat (map_fold (λ _ (p : Position) acc, p_units p + acc) 0
                   (positions db) `div` AIRDROP_TRIGGER_UNITS
                   - Z.of_nat (length (airdrops db)))))).
  intros ps.
  assert (∀ st, consistent st.1 →
            consistent (fold_left (airdrop_round sem
              (map_fold (λ _ (p : Position) acc, p_units p + acc) 0 (positions db))
              (map_fold (λ _ (p : Position) acc, p_units p + acc) 0 (positions db)
                 `div` AIRDROP_TRIGGER_UNITS - Z.of_nat (length (airdrops db))))
              ps st).1) as Hfold.
  { induction ps as [|p ps IH]; intros st H1; simpl; [done|].
    apply IH. by apply airdrop_round_consistent. }
  by apply (Hfold (db, rs)).
Qed.

Lemma wallet_swap_consistent u fa ta amt db :
  consistent db → consistent (wallet_swap u fa ta amt db).2.
Proof.
  intros Hc. unfold wallet_swap.
  destruct (Qle_bool amt 0); [done|].
  destruct (if bool_decide (normAsset fa = "USDT") && _ then _ else _) as [c|]; [|done].
  destruct (Qlt_bool _ amt); [done|]. simpl.
  intros u' a'.
  rewrite ledger_sum_insert, contribution_credit by classify.
  rewrite ledger_sum_insert, contribution_debit by classify.
  rewrite (balance_of_same_balances
    (upsert_balance u (normAsset ta) c (upsert_balance u (normAsset fa) (- amt) db)))
    by done.
  rewrite !balance_of_upsert.
  rewrite (ledger_sum_same_ledger db) by done.
  rewrite (Hc u' a'). lra.
Qed.

Lemma referral_claim_consistent rate minP minU u db :
  consistent db → consistent (referral_claim rate minP minU u db).2.
Proof.
  intros Hc. unfold referral_claim.
  destruct (_ && _); [done|]. simpl.
  intros u' a'.
  rewrite ledger_sum_insert, contribution_credit by classify.
  match goal with
  | |- context [upsert_balance u "USDT" ?v ?d] =>
      rewrite (balance_of_same_balances (upsert_balance u "USDT" v d)) by done;
      rewrite balance_of_upsert;
      rewrite (balance_of_same_balances db d) by done
  end.
  rewrite (ledger_sum_same_ledger db) by done.
  rewrite (Hc u' a'). lra.
Qed.

Lemma claimCredit_consistent now u k db :
  consistent db → consistent (claimCredit now u k db).2.
Proof.
  intros Hc. unfold claimCredit.
  repeat (case_bool_decide; [done|]).
  destruct (credits _ !! k) as [c|]; [|done].
  destruct (negb _); [done|].
  destruct (negb (not_expired now c)).
  { eapply consistent_ext; [..|exact Hc]; done. }
  case_bool_decide; [done|]. destruct (negb _); [done|].
  destruct (Qle_bool _ 0); [done|].
  destruct (existsb _ _).
  { eapply consistent_ext; [..|exact Hc]; done. }
  simpl.
  apply (consistent_ext
           (insert_ledger u "USDT" (Some "SYSTEM") "reward_credit" (c_amount_usdt c)
              (RefRewardCredit k)
              (upsert_balance u "USDT" (c_amount_usdt c)
                 (evaluateRewardCreditsForUser now u db)))); [done|done|].
  apply consistent_credit; [classify|].
  eapply consistent_ext; [..|exact Hc]; done.
Qed.

(** ** The balance-mutating operations as one transition system *)

(** Every operation other than the transfer keeps the projection equal to
    the signed sum. *)
Lemma run_consistent db op :
  is_transfer op = false → consistent db → consistent (run db op).
Proof.
  intros Hop Hc. destruct op; simpl in *; try done.
  - by apply creditDeposit_consistent.
  - by apply sweeper_process_consistent.
  - by apply stake_open_consistent.
  - by apply trigger_consistent.
  - by apply referral_claim_consistent.
  - by apply claimCredit_consistent.
  - by apply wallet_swap_consistent.
Qed.

Lemma runs_consistent ops db :
  forallb (λ op, negb (is_transfer op)) ops = true →
  consistent db → consistent (fold_left run ops db).
Proof.
  revert db. induction ops as [|op ops IH]; intros db Hops Hc; simpl; [done|].
  simpl in Hops. apply andb_true_iff in Hops as [H1 H2].
  apply IH; [done|]. apply run_consistent; [|done].
  by apply negb_true_iff.
Qed.

(** C1, at the failing input. After the deposit of 100 USDT is credited the
    projection equals the signed sum; a crypto transfer with a total debit of
    10 then commits, the projection goes down to 90, and the signed sum of the
    ledger goes up to 110, because the transfer stores its amount negated
    under a debit-set type. *)
Theorem C1_transfer_drifts_projection :
  let r := wallet_transfer 0 7 KCrypto "BSC" 10%Q funded_db in
  consistent funded_db ∧
  r.1 = TransferOk ∧
  (balance_of r.2 7 "USDT" == 90)%Q ∧
  (ledger_sum r.2 7 "USDT" == 110)%Q ∧
  ¬ consistent r.2.
Proof.
  cbv zeta.
  assert ((balance_of (wallet_transfer 0 7 KCrypto "BSC" 10%Q funded_db).2 7 "USDT"
           == 90)%Q) as Hb by (vm_compute; reflexivity).
  assert ((ledger_sum (wallet_transfer 0 7 KCrypto "BSC" 10%Q funded_db).2 7 "USDT"
           == 110)%Q) as Hl by (vm_compute; reflexivity).
  split; [|split; [|split; [|split]]]; try done.
  - apply creditDeposit_consistent, consistent_ext with empty_db; try done.
  - intros Hc. specialize (Hc 7 "USDT"). rewrite Hb, Hl in Hc. discriminate Hc.
Qed.

(** The sibling debits store the magnitude: the row a stake appends and the
    two rows a swap appends carry positive amounts. *)
Lemma stake_open_row_positive u a un m db posId p db' :
  stake_open u a un m db = (StakeOk posId p, db') →
  ∃ row, ledger db' = ledger db ++ [row] ∧ l_type row = "stake_lock" ∧
         (0 < l_amount row)%Q.
Proof.
  unfold stake_open.
  assert (¬ requested_units a un < 1 →
          (0 < inject_Z (requested_units a un) * STAKE_UNIT_VPK)%Q) as Hq.
  { intros Hu. assert ((inject_Z 1 <= inject_Z (requested_units a un))%Q) as H1
      by (rewrite <- Zle_Qle; lia).
    change (inject_Z 1) with 1%Q in H1.
    unfold STAKE_UNIT_VPK, STAKE_UNIT_USDT, VPK_PER_USDT. lra. }
  destruct a, un; try done;
    (case_bool_decide as Hu; [done|]; destruct (Qlt_bool _ _); [done|];
     intros [= <- <- <-]; eexists; split; [reflexivity|]; split; [done|];
     cbn [l_amount]; by apply Hq).
Qed.

Lemma wallet_swap_rows_positive u fa ta amt db c db' :
  wallet_swap u fa ta amt db = (SwapOk c, db') →
  ∃ out inn, ledger db' = ledger db ++ [out; inn] ∧
             l_type out = "swap_out" ∧ (0 < l_amount out)%Q ∧
             l_type inn = "swap_in" ∧ (0 < l_amount inn)%Q.
Proof.
  unfold wallet_swap.
  destruct (Qle_bool amt 0) eqn:Ea; [done|]. apply Qle_bool_false in Ea.
  destruct (if bool_decide (normAsset fa = "USDT") && _ then _ else _) as [c'|] eqn:Ec;
    [|done].
  destruct (Qlt_bool _ amt); [done|].
  intros [= <- <-]. do 2 eexists.
  split; [cbn [ledger insert_ledger set_ledger]; by rewrite <- app_assoc|].
  split; [done|]. split; [done|]. split; [done|]. cbn [l_amount].
  destruct (bool_decide (normAsset fa = "USDT") && bool_decide (normAsset ta = "VPK")).
  - injection Ec as <-. unfold RATE_USDT_TO_VPK. lra.
  - destruct (bool_decide (normAsset fa = "VPK") && bool_decide (normAsset ta = "USDT"));
      [|discriminate Ec].
    injection Ec as <-. unfold RATE_VPK_TO_USDT, RATE_USDT_TO_VPK.
    assert ((amt * (1 / 100) == amt * (1 # 100))%Q) as -> by field. lra.
Qed.

(** C4, at the failing input: the ledger row the transfer appends has type
    [transfer_out] and the amount -10. *)
Theorem C4_transfer_stores_negative_amount :
  let r := wallet_transfer 0 7 KCrypto "BSC" 10%Q funded_db in
  r.1 = TransferOk ∧
  ∃ row, last (ledger r.2) = Some row ∧
         l_type row = "transfer_out" ∧ l_type row ∈ MINUS ∧
         (l_amount row == - 10)%Q ∧ (l_amount row < 0)%Q.
Proof.
  cbv zeta. split; [by vm_compute|].
  eexists. split; [vm_compute; reflexivity|].
  simpl. repeat split; first [done | classify].
Qed.

(** ** Deposit credit: idempotence of the locked credit, and the sweeper *)

Lemma existsb_snoc {A} (f : A → bool) l x :
  existsb f (l ++ [x]) = existsb f l || f x.
Proof. rewrite existsb_app. simpl. by rewrite orb_false_r. Qed.

(** Once the ledger holds the deposit row of an intent, the credit helper of
    the watcher and of the server commits without changing anything. *)
Lemma creditDeposit_skips ev now id amount db :
  is_Some (deposits db !! id) →
  existsb (is_deposit_row id) (ledger db) = true →
  creditDepositAndWebhook ev now id amount db = (CreditSkipped, db).
Proof.
  intros [dep Hd] Hex. unfold creditDepositAndWebhook. by rewrite Hd, Hex.
Qed.

(** A credit that went through leaves the deposit row in the ledger, so that
    any later credit of the same intent, on either helper and with any
    amount, is skipped. *)
Lemma creditDeposit_twice ev ev' now now' id amount amount' db :
  (creditDepositAndWebhook ev now id amount db).1 = CreditDone →
  creditDepositAndWebhook ev' now' id amount'
    (creditDepositAndWebhook ev now id amount db).2
  = (CreditSkipped, (creditDepositAndWebhook ev now id amount db).2).
Proof.
  unfold creditDepositAndWebhook at 1 3 4.
  destruct (deposits db !! id) as [dep|] eqn:Hd; [|done].
  destruct (existsb _ _) eqn:Hex; [done|].
  destruct (Qle_bool _ 0); [done|]. simpl. intros _.
  apply creditDeposit_skips.
  - destruct ev; simpl; rewrite lookup_alter_eq, Hd; simpl; eauto.
  - destruct ev; simpl; rewrite existsb_snoc; apply orb_true_iff; right;
      unfold is_deposit_row; simpl; by rewrite !bool_decide_eq_true_2.
Qed.


(** The scenario of the spec: with 12 confirmations required, a fact with 11
    leaves the intent confirming and the ledger empty; the next fact, with 12,
    credits it and appends exactly one ledger row. *)
Example eleven_then_twelve_confirmations :
  let db11 := scan_log 0 1 pending_intent 11 25 pending_db in
  let db12 := scan_log 0 1 pending_intent 12 25 db11 in
  (d_status <$> deposits db11 !! 1, length (ledger db11)) = (Some DConfirming, 0%nat) ∧
  (d_status <$> deposits db12 !! 1, length (deposit_rows 1 db12)) = (Some DCredited, 1%nat) ∧
  (balance_of db12 7 "USDT" == 25)%Q.
Proof. cbv zeta. repeat split; vm_compute; reflexivity. Qed.

(** ** The pre-debit availability check *)






(** ** Stake open: the cap multiplier *)

Lemma lookup_fresh_insert {A} (m : gmap Z A) (x : A) :
  <[fresh_key m := x]> m !! fresh_key m = Some x.
Proof. apply lookup_insert_eq. Qed.

(** C10. A stake request with a valid unit count and enough VPK creates an
    active position whose cap is units * 9 * m for whatever number m the
    caller sent as cap_multiplier, of any sign or size; the default 3 is used
    only when the field is absent. *)
Theorem C10_cap_multiplier_unchecked (userId : Z)
    (body_amount body_units body_cap_multiplier : option Q) (db : Db) :
  let units := requested_units body_amount body_units in
  (is_Some body_amount ∨ is_Some body_units) →
  1 ≤ units →
  (inject_Z units * STAKE_UNIT_VPK <= balance_of db userId "VPK")%Q →
  ∃ posId p db',
    stake_open userId body_amount body_units body_cap_multiplier db
      = (StakeOk posId p, db') ∧
    positions db' !! posId = Some p ∧
    p_units p = units ∧ p_status p = PActive ∧ p_credited_usdt p = 0%Q ∧
    p_cap_multiplier p = match body_cap_multiplier with
                         | Some m => m
                         | None => DEFAULT_MULT
                         end ∧
    (p_cap_usdt p == inject_Z units * 9 * match body_cap_multiplier with
                                          | Some m => m
                                          | None => 3
                                          end)%Q.
Proof.
  cbv zeta. intros Hbody Hunits Hfunds.
  unfold stake_open.
  assert (match body_amount, body_units with None, None => False | _, _ => True end)
    as Hb by (destruct body_amount, body_units; try done;
              destruct Hbody as [[? ?]|[? ?]]; done).
  rewrite bool_decide_eq_false_2 by lia.
  rewrite balance_of_ensure.
  assert (Qlt_bool (balance_of db userId "VPK")
            (inject_Z (requested_units body_amount body_units) * STAKE_UNIT_VPK)
          = false) as -> by (by apply Qlt_bool_false).
  destruct body_amount, body_units; try done;
    (do 3 eexists; split; [reflexivity|]; simpl;
     split; [apply lookup_fresh_insert|];
     repeat split; destruct body_cap_multiplier; simpl; try done;
     unfold STAKE_UNIT_USDT, DEFAULT_MULT; lra).
Qed.

Lemma C10_cap_multiplier_unchecked_witness :
  ((is_Some (@None Q) ∨ is_Some (Some 1%Q)) ∧
   1 ≤ requested_units None (Some 1%Q) ∧
   (inject_Z (requested_units None (Some 1%Q)) * STAKE_UNIT_VPK
    <= balance_of staker_db 7 "VPK")%Q) ∧
  ∃ posId p db',
    stake_open 7 None (Some 1%Q) (Some (- 2)%Q) staker_db = (StakeOk posId p, db') ∧
    positions db' !! posId = Some p ∧
    p_units p = 1 ∧ p_status p = PActive ∧ p_credited_usdt p = 0%Q ∧
    p_cap_multiplier p = (- 2)%Q ∧
    (p_cap_usdt p == inject_Z 1 * 9 * (- 2))%Q.
Proof.
  assert ((is_Some (@None Q) ∨ is_Some (Some 1%Q)) ∧
          1 ≤ requested_units None (Some 1%Q) ∧
          (inject_Z (requested_units None (Some 1%Q)) * STAKE_UNIT_VPK
           <= balance_of staker_db 7 "VPK")%Q) as H.
  { split; [right; by eexists|]. split; [by vm_compute|].
    vm_compute. discriminate. }
  split; [exact H|].
  destruct H as (H1 & H2 & H3).
  exact (C10_cap_multiplier_unchecked 7 None (Some 1%Q) (Some (- 2)%Q) staker_db H1 H2 H3).
Defined.

(** ** Airdrop payouts on one position *)

Lemma creditAmt_of_positive p :
  (0 < creditAmt_of p)%Q →
  (0 < p_cap_usdt p - p_credited_usdt p)%Q ∧
  (creditAmt_of p <= p_cap_usdt p - p_credited_usdt p)%Q.
Proof.
  unfold creditAmt_of. intros H.
  destruct (Qmax'_spec 0 (p_cap_usdt p - p_credited_usdt p)) as [[H1 E1]|[H1 E1]];
    rewrite E1 in *;
    destruct (Qmin'_spec (per_unit p) (p_cap_usdt p - p_credited_usdt p)) as [[H2 E2]|[H2 E2]];
    destruct (Qmin'_spec (per_unit p) 0) as [[H3 E3]|[H3 E3]];
    try rewrite E2 in *; try rewrite E3 in *; split; lra.
Qed.

Lemma credit_position_spec sem p :
  let amt := creditAmt_of p in
  let p' := credit_position sem amt p in
  (0 < amt)%Q →
  p_cap_usdt p' = p_cap_usdt p ∧
  (p_credited_usdt p' == p_credited_usdt p + amt)%Q ∧
  (p_credited_usdt p' <= p_cap_usdt p)%Q ∧
  ((p_credited_usdt p' == p_cap_usdt p)%Q → p_status p' = PCompleted).
Proof.
  cbv zeta. intros Hpos.
  destruct (creditAmt_of_positive p Hpos) as [H1 H2].
  assert ((Qmin' (p_cap_usdt p) (p_credited_usdt p + creditAmt_of p)
           == p_credited_usdt p + creditAmt_of p)%Q) as Hc.
  { destruct (Qmin'_spec (p_cap_usdt p) (p_credited_usdt p + creditAmt_of p))
      as [[H3 ->]|[H3 ->]]; lra. }
  unfold credit_position. simpl. repeat split; [done|lra|].
  intros Heq.
  destruct (Qle_bool _ _) eqn:E; [done|].
  apply Qle_bool_false in E. destruct sem; lra.
Qed.

(** What one payout does to the position row [id]. *)
Lemma payout_position sem aid ens db w id p :
  positions db !! id = Some p →
  positions (payout sem aid (ens, db) w).2 !! id = Some p ∨
  (t_position w = id ∧ p_status p = PActive ∧ (0 < creditAmt_of p)%Q ∧
   positions (payout sem aid (ens, db) w).2 !! id
   = Some (credit_position sem (creditAmt_of p) p)).
Proof.
  intros Hp. unfold payout.
  set (db1 := if bool_decide (t_user w ∈ ens) then db
              else ensure_balance (t_user w) "USDT" db).
  assert (positions db1 = positions db) as Hpos by (subst db1; by case_bool_decide).
  rewrite Hpos.
  destruct (positions db !! t_position w) as [pos|] eqn:Hw; simpl;
    [|left; by rewrite Hpos].
  case_bool_decide as Hact; simpl; [|left; by rewrite Hpos].
  destruct (Qle_bool (creditAmt_of pos) 0) eqn:E; simpl; [left; by rewrite Hpos|].
  apply Qle_bool_false in E. rewrite Hpos.
  destruct (decide (t_position w = id)) as [Heq|Hne].
  - right. rewrite Heq in *. assert (pos = p) as -> by congruence.
    rewrite lookup_alter_eq, Hp. done.
  - left. by rewrite lookup_alter_ne.
Qed.

Lemma payout_noop sem db id p :
  positions db !! id = Some p →
  p_status p = PCompleted ∨ (p_cap_usdt p <= p_credited_usdt p)%Q →
  payout_changes_nothing sem db id.
Proof.
  intros Hp Hdone aid ens w Hw. unfold payout.
  set (db1 := if bool_decide (t_user w ∈ ens) then db
              else ensure_balance (t_user w) "USDT" db).
  assert (positions db1 = positions db ∧ ledger db1 = ledger db ∧
          recipients db1 = recipients db ∧
          ∀ u a, balance_of db1 u a = balance_of db u a) as Hsame.
  { subst db1. case_bool_decide; [done|]. repeat split; try done.
    intros u a. apply balance_of_ensure. }
  destruct Hsame as (Hpos & ?). rewrite Hpos, Hw, Hp.
  destruct Hdone as [Hst|Hcap].
  - rewrite Hst. simpl. done.
  - case_bool_decide; simpl; [|done].
    assert (Qle_bool (creditAmt_of p) 0 = true) as ->; [|done].
    apply Qle_bool_true. unfold creditAmt_of.
    destruct (Qmax'_spec 0 (p_cap_usdt p - p_credited_usdt p)) as [[H1 ->]|[H1 ->]];
      [|destruct (Qmin'_spec (per_unit p) 0) as [[H2 ->]|[H2 ->]]; lra].
    destruct (Qmin'_spec (per_unit p) (p_cap_usdt p - p_credited_usdt p))
      as [[H2 ->]|[H2 ->]]; lra.
Qed.

Lemma payout_steps_position sem db db' id p :
  payout_steps sem db db' →
  positions db !! id = Some p →
  ∃ p', positions db' !! id = Some p' ∧
        p_cap_usdt p' = p_cap_usdt p ∧
        (p_credited_usdt p <= p_credited_usdt p')%Q ∧
        ((p_credited_usdt p <= p_cap_usdt p)%Q →
         (p_credited_usdt p' <= p_cap_usdt p)%Q) ∧
        (p_status p = PCompleted → p' = p) ∧
        ((p_credited_usdt p < p_credited_usdt p')%Q →
         (p_credited_usdt p' == p_cap_usdt p)%Q → p_status p' = PCompleted).
Proof.
  intros Hsteps. revert p.
  induction Hsteps as [db|db aid ens w db' Hsteps IH]; intros p Hp.
  - exists p. repeat split; try done; lra.
  - destruct (payout_position sem aid ens db w id p Hp) as [H1|(Hw & Hact & Hamt & H1)].
    + apply IH, H1.
    + destruct (IH _ H1) as (p' & Hp' & Hcap & Hmono & Hbound & Hdone & Hreach).
      destruct (credit_position_spec sem p Hamt) as (Ecap & Ecred & Ele & Ecomp).
      exists p'. rewrite Ecap in *.
      split; [done|]. split; [done|]. split; [lra|].
      split; [intros _; apply Hbound; lra|].
      split; [intros Hst; congruence|].
      intros Hlt Heq.
      destruct (Qlt_le_dec (p_credited_usdt (credit_position sem (creditAmt_of p) p))
                           (p_credited_usdt p')) as [Hlt'|Hle'].
      * by apply Hreach.
      * assert (p_status (credit_position sem (creditAmt_of p) p) = PCompleted) as Hc.
        { apply Ecomp. lra. }
        rewrite (Hdone Hc). done.
Qed.

(** C3, the claim as stated fails for a position opened with a negative cap
    multiplier: its cap is negative, its credited total is 0 and exceeds the
    cap from the start, and a payout that targets it changes neither. *)
Lemma C3_negative_cap_exceeded :
  let db := (stake_open 7 None (Some 1%Q) (Some (- 1)%Q) staker_db).2 in
  let db' := payouts LeftToRight 1 [{| t_position := 1; t_user := 7 |}] db in
  payout_steps LeftToRight db db' ∧
  ∃ p, positions db' !! 1 = Some p ∧ p_status p = PActive ∧
       (p_cap_usdt p < p_credited_usdt p)%Q.
Proof.
  cbv zeta. split.
  - eapply payout_steps_step, payout_steps_refl.
  - eexists. split; [vm_compute; reflexivity|]. split; [done|]. by vm_compute.
Qed.

(** C3, amended. For every staking position whose credited total does not
    exceed its cap when the payouts start (every position opened with a
    non-negative cap multiplier), across any sequence of airdrop payouts and
    under either evaluation order of the UPDATE: the cap is unchanged, the
    credited total never decreases and never exceeds the cap; once a payout
    has brought it to the cap the status is completed; and a winning draw
    that targets a completed position, or one whose credited total has
    reached the cap, credits nothing and changes nothing. *)
Theorem C3_credited_bounded_by_cap (sem : UpdateEval) (db db' : Db) (id : Z)
    (p : Position) :
  payout_steps sem db db' →
  positions db !! id = Some p →
  (p_credited_usdt p <= p_cap_usdt p)%Q →
  ∃ p', positions db' !! id = Some p' ∧
        p_cap_usdt p' = p_cap_usdt p ∧
        (p_credited_usdt p <= p_credited_usdt p')%Q ∧
        (p_credited_usdt p' <= p_cap_usdt p')%Q ∧
        ((p_credited_usdt p < p_credited_usdt p')%Q →
         (p_credited_usdt p' == p_cap_usdt p')%Q → p_status p' = PCompleted) ∧
        (p_status p' = PCompleted ∨ (p_cap_usdt p' <= p_credited_usdt p')%Q →
         payout_changes_nothing sem db' id).
Proof.
  intros Hsteps Hp Hle.
  destruct (payout_steps_position sem db db' id p Hsteps Hp)
    as (p' & Hp' & Hcap & Hmono & Hbound & _ & Hreach).
  exists p'. rewrite Hcap.
  split; [done|]. split; [done|]. split; [done|].
  split; [by apply Hbound|]. split; [done|].
  intros Hdone. apply (payout_noop sem db' id p' Hp'). by rewrite Hcap.
Qed.

Lemma C3_credited_bounded_by_cap_witness :
  (payout_steps Simultaneous one_unit_db (one_unit_paid Simultaneous) ∧
   positions one_unit_db !! 1 = Some one_unit_position ∧
   (p_credited_usdt one_unit_position <= p_cap_usdt one_unit_position)%Q) ∧
  ∃ p', positions (one_unit_paid Simultaneous) !! 1 = Some p' ∧
        p_cap_usdt p' = p_cap_usdt one_unit_position ∧
        (p_credited_usdt one_unit_position <= p_credited_usdt p')%Q ∧
        (p_credited_usdt p' <= p_cap_usdt p')%Q ∧
        ((p_credited_usdt one_unit_position < p_credited_usdt p')%Q →
         (p_credited_usdt p' == p_cap_usdt p')%Q → p_status p' = PCompleted) ∧
        (p_status p' = PCompleted ∨ (p_cap_usdt p' <= p_credited_usdt p')%Q →
         payout_changes_nothing Simultaneous (one_unit_paid Simultaneous) 1).
Proof.
  assert (payout_steps Simultaneous one_unit_db (one_unit_paid Simultaneous)) as H1
    by (eapply payout_steps_step, payout_steps_refl).
  assert (positions one_unit_db !! 1 = Some one_unit_position) as H2
    by (vm_compute; reflexivity).
  assert ((p_credited_usdt one_unit_position <= p_cap_usdt one_unit_position)%Q) as H3
    by (vm_compute; discriminate).
  split; [done|].
  exact (C3_credited_bounded_by_cap Simultaneous one_unit_db (one_unit_paid Simultaneous)
           1 one_unit_position H1 H2 H3).
Defined.

(** The scenario of the spec on the witness: the payout credits 27, which is
    the cap, and the position is completed, under both evaluation orders. *)
Example one_unit_completed sem :
  (λ p, (p_credited_usdt p, p_status p)) <$> positions (one_unit_paid sem) !! 1
  = Some (27%Q, PCompleted).
Proof. destruct sem; vm_compute; reflexivity. Qed.

(** The scenario of the spec, a position of 10 units with cap 270 and 27 per
    win. When the UPDATE reads the old row, the tenth win completes the
    position at 270 and an eleventh credits nothing. When the assignments
    run left to right, the CASE already sees the new credited total, the
    ninth win completes the position at 243 and the tenth credits nothing. *)
Example ten_wins_simultaneous :
  map (λ n, position_state (after_wins Simultaneous n) 1) [9; 10; 11]%nat
  = [Some (243%Q, PActive); Some (270%Q, PCompleted); Some (270%Q, PCompleted)].
Proof. vm_compute. reflexivity. Qed.

Example ten_wins_left_to_right :
  map (λ n, position_state (after_wins LeftToRight n) 1) [8; 9; 10]%nat
  = [Some (216%Q, PActive); Some (243%Q, PCompleted); Some (243%Q, PCompleted)].
Proof. vm_compute. reflexivity. Qed.

(** ** Airdrop rounds: ticket pools and winner selection *)

(** Positions of 50 and 20 units: the first round (units 1 to 60) has no old
    tickets and 50 + 10 new ones; the second (units 61 to 120) has 50 + 10 old
    tickets and the 10 remaining units of the second position as new ones. *)
Example cohorts_of_two_stakers :
  let first := buildCohortsConsumed two_stakers_db 0 in
  let second := buildCohortsConsumed two_stakers_db 60 in
  (tickets_by_user 7 8 first.1, tickets_by_user 7 8 first.2)
  = ((0, 0), (50, 10))%nat ∧
  (tickets_by_user 7 8 second.1, tickets_by_user 7 8 second.2)
  = ((50, 10), (0, 10))%nat.
Proof. cbv zeta. split; vm_compute; reflexivity. Qed.

Lemma pick_loop_spec {A} (k : nat) (bag : list A) (rs : list nat) :
  (pick_loop k bag rs).1 ⊆+ bag ∧
  length (pick_loop k bag rs).1 = (k `min` length bag)%nat.
Proof.
  revert bag rs. induction k as [|k IH]; intros bag rs; simpl.
  - split; [apply submseteq_nil_l|done].
  - destruct bag as [|b bag'] eqn:Hbag.
    { simpl. split; [done|lia]. }
    rewrite <- Hbag.
    assert (0 < length bag)%nat as Hlen by (subst bag; simpl; lia).
    assert (hd 0%nat rs `mod` length bag < length bag)%nat as Hidx
      by (apply Nat.mod_upper_bound; lia).
    destruct (lookup_lt_is_Some_2 bag _ Hidx) as [x Hx]. rewrite Hx.
    specialize (IH (delete (hd 0%nat rs `mod` length bag)%nat bag) (tl rs)).
    destruct (pick_loop k _ (tl rs)) as [out rs'] eqn:E. simpl in *.
    destruct IH as [IH1 IH2]. split.
    + rewrite (delete_Permutation bag _ x Hx). by apply submseteq_skip.
    + rewrite IH2, length_delete by eauto.
      destruct (length bag); [lia|]. f_equal. lia.
Qed.

Lemma pickWithoutReplacement_spec {A} (arr : list A) (k : nat) (rs : list nat) :
  (pickWithoutReplacement arr k rs).1 ⊆+ arr ∧
  length (pickWithoutReplacement arr k rs).1 = (k `min` length arr)%nat.
Proof.
  unfold pickWithoutReplacement.
  destruct (bool_decide (k = 0%nat) || bool_decide (length arr = 0%nat)) eqn:E1.
  - simpl. split; [apply submseteq_nil_l|].
    apply orb_true_iff in E1 as [E|E]; apply bool_decide_eq_true in E; lia.
  - destruct (bool_decide (length arr ≤ k)%nat) eqn:E2.
    + apply bool_decide_eq_true in E2. simpl. split; [done|lia].
    + apply pick_loop_spec.
Qed.

Lemma filter_not_drawn_nil (l : list Ticket) :
  List.filter (λ t, negb (bool_decide (t_user t ∈ (∅ : gset Z)))) l = l.
Proof.
  induction l as [|t l IH]; [done|]. cbn [List.filter].
  rewrite bool_decide_eq_false_2 by set_solver. cbn [negb]. by rewrite IH.
Qed.

Lemma select_winners_spec (oldTickets newTickets : list Ticket) (rs : list nat) :
  let oldWinners := (select_winners oldTickets newTickets rs).1.1 in
  let newWinners := (select_winners oldTickets newTickets rs).1.2 in
  newWinners ⊆+ newTickets ∧
  length newWinners = (NEW_PICK `min` length newTickets)%nat ∧
  oldWinners ⊆+ old_filtered newWinners oldTickets ∧
  length oldWinners
  = (OLD_PICK `min` ((AIRDROP_REWARD_UNITS - length newWinners) `min`
                     length (old_filtered newWinners oldTickets)))%nat.
Proof.
  cbv zeta. unfold select_winners.
  set (newPick := (NEW_PICK `min` (AIRDROP_REWARD_UNITS `min` length newTickets))%nat).
  assert (∃ nw rs1,
    (if bool_decide (0 < newPick)%nat
     then pickWithoutReplacement newTickets newPick rs else ([], rs)) = (nw, rs1) ∧
    nw ⊆+ newTickets ∧ length nw = (NEW_PICK `min` length newTickets)%nat)
    as (nw & rs1 & -> & Hsub & Hlen).
  { case_bool_decide as Hpos.
    - pose proof (pickWithoutReplacement_spec newTickets newPick rs) as [H1 H2].
      destruct (pickWithoutReplacement newTickets newPick rs) as [nw rs1].
      exists nw, rs1. cbn [fst snd] in *. split; [done|]. split; [done|].
      rewrite H2. subst newPick. unfold NEW_PICK, AIRDROP_REWARD_UNITS. lia.
    - exists [], rs. split; [done|]. split; [apply submseteq_nil_l|].
      subst newPick. unfold NEW_PICK, AIRDROP_REWARD_UNITS in *. cbn [length]. lia. }
  set (drawn := (list_to_set (map t_user nw) : gset Z)).
  assert ((if bool_decide (size drawn ≠ 0%nat)
           then List.filter (λ t, negb (bool_decide (t_user t ∈ drawn))) oldTickets
           else oldTickets) = old_filtered nw oldTickets) as ->.
  { unfold old_filtered. fold drawn. case_bool_decide as Hsz; [done|].
    assert (drawn = ∅) as -> by (apply leibniz_equiv, size_empty_iff; lia).
    by rewrite filter_not_drawn_nil. }
  set (oldPick := (OLD_PICK `min` ((AIRDROP_REWARD_UNITS - length nw) `min`
                     length (old_filtered nw oldTickets)))%nat).
  case_bool_decide as Hpos.
  - pose proof (pickWithoutReplacement_spec (old_filtered nw oldTickets) oldPick rs1)
      as [H1 H2].
    destruct (pickWithoutReplacement (old_filtered nw oldTickets) oldPick rs1)
      as [ow rs2]. cbn [fst snd] in *.
    split; [done|]. split; [done|]. split; [done|].
    rewrite H2. subst oldPick. lia.
  - cbn [fst snd length]. split; [done|]. split; [done|]. split; [apply submseteq_nil_l|].
    subst oldPick. lia.
Qed.

Lemma rows_by_id_lookup {A} (m : gmap Z A) (id : Z) (x : A) :
  (id, x) ∈ rows_by_id m → m !! id = Some x.
Proof.
  unfold rows_by_id. rewrite merge_sort_Permutation. apply elem_of_map_to_list.
Qed.

Lemma tickets_of_backed db n id p t :
  positions db !! id = Some p → p_status p = PActive → 0 < capacity_units p →
  t ∈ tickets_of n id p → ticket_backed db t.
Proof.
  intros Hp Hst Hcap Ht. unfold tickets_of in Ht.
  apply list_elem_of_In, repeat_spec in Ht. subst t.
  exists p. done.
Qed.

Lemma cohort_step_backed db prevUnits acc row :
  positions db !! row.1 = Some row.2 →
  Forall (ticket_backed db) acc.1.1 → Forall (ticket_backed db) acc.1.2 →
  Forall (ticket_backed db) (cohort_step prevUnits acc row).1.1 ∧
  Forall (ticket_backed db) (cohort_step prevUnits acc row).1.2.
Proof.
  destruct acc as [[oldT newT] g]. simpl. intros Hrow Hold Hnew.
  unfold cohort_step.
  case_bool_decide; [done|].
  case_bool_decide as Hact; simpl; [|done].
  case_bool_decide as Hun; [done|].
  case_bool_decide; [done|]. simpl.
  assert (0 < capacity_units row.2) as Hcap by (unfold unconsumedUnits in Hun; lia).
  split; apply Forall_app; (split; [done|]); apply Forall_forall; intros t Ht;
    eapply tickets_of_backed; eauto.
Qed.

Lemma buildCohortsConsumed_backed db prevUnits :
  Forall (ticket_backed db) (buildCohortsConsumed db prevUnits).1 ∧
  Forall (ticket_backed db) (buildCohortsConsumed db prevUnits).2.
Proof.
  unfold buildCohortsConsumed.
  assert (∀ rows acc,
    (∀ row, row ∈ rows → positions db !! row.1 = Some row.2) →
    Forall (ticket_backed db) acc.1.1 → Forall (ticket_backed db) acc.1.2 →
    Forall (ticket_backed db) (fold_left (cohort_step prevUnits) rows acc).1.1 ∧
    Forall (ticket_backed db) (fold_left (cohort_step prevUnits) rows acc).1.2) as H.
  { induction rows as [|row rows IH]; intros acc Hrows H1 H2; simpl; [done|].
    destruct (cohort_step_backed db prevUnits acc row) as [H3 H4]; try done.
    { apply Hrows. left. }
    apply IH; try done. intros r Hr. apply Hrows. by right. }
  apply H; try done.
  intros [id p] Hin. by apply rows_by_id_lookup.
Qed.

Lemma filter_sublist {A} (f : A → bool) (l : list A) : sublist (List.filter f l) l.
Proof.
  induction l as [|x l IH]; cbn [List.filter]; [constructor|].
  destruct (f x); [by apply sublist_skip | by apply sublist_cons].
Qed.

Lemma old_filtered_spec newWinners oldTickets t :
  t ∈ old_filtered newWinners oldTickets →
  t ∈ oldTickets ∧ ∀ t', t' ∈ newWinners → t_user t ≠ t_user t'.
Proof.
  unfold old_filtered. rewrite !list_elem_of_In, filter_In.
  intros [Hin Hnot]. split; [done|].
  intros t' Ht' Heq. apply negb_true_iff, bool_decide_eq_false in Hnot.
  apply Hnot. apply elem_of_list_to_set, list_elem_of_fmap. exists t'. done.
Qed.

(** C7. In every airdrop round and for every outcome of the random draws:
    at most AIRDROP_REWARD_UNITS tickets win; the new-pool winners are a
    sub-multiset of the new pool, NEW_PICK of them or the whole pool when it
    is smaller; the old-pool winners are a sub-multiset of the old pool
    without every user already drawn from the new pool, as many as OLD_PICK,
    the remaining winner slots and the size of that filtered pool allow; no
    old-pool winner shares its user with a new-pool winner; and every winning
    ticket belongs to an active position of its user whose unconsumed capacity
    floor((cap - credited) / perUnit) is positive. *)
Theorem C7_airdrop_winner_selection (db : Db) (prevUnits : Z) (rs : list nat) :
  let oldTickets := (buildCohortsConsumed db prevUnits).1 in
  let newTickets := (buildCohortsConsumed db prevUnits).2 in
  let oldWinners := (select_winners oldTickets newTickets rs).1.1 in
  let newWinners := (select_winners oldTickets newTickets rs).1.2 in
  let oldFiltered := old_filtered newWinners oldTickets in
  (length (oldWinners ++ newWinners) ≤ AIRDROP_REWARD_UNITS)%nat ∧
  newWinners ⊆+ newTickets ∧
  length newWinners = (NEW_PICK `min` length newTickets)%nat ∧
  oldWinners ⊆+ oldFiltered ∧
  oldFiltered ⊆+ oldTickets ∧
  length oldWinners
  = (OLD_PICK `min` ((AIRDROP_REWARD_UNITS - length newWinners) `min`
                     length oldFiltered))%nat ∧
  (∀ t t', t ∈ oldWinners → t' ∈ newWinners → t_user t ≠ t_user t') ∧
  (∀ t, t ∈ oldWinners ++ newWinners → ticket_backed db t).
Proof.
  cbv zeta.
  destruct (select_winners_spec (buildCohortsConsumed db prevUnits).1
              (buildCohortsConsumed db prevUnits).2 rs) as (Hn1 & Hn2 & Ho1 & Ho2).
  destruct (buildCohortsConsumed_backed db prevUnits) as [Hbo Hbn].
  rewrite Forall_forall in Hbo, Hbn.
  split; [rewrite length_app, Ho2, Hn2; unfold NEW_PICK, AIRDROP_REWARD_UNITS; lia|].
  split; [done|]. split; [done|]. split; [done|].
  split.
  { apply sublist_submseteq, filter_sublist. }
  split; [done|]. split.
  - intros t t' Ht Ht'.
    apply (elem_of_submseteq _ _ _ Ht) in Ho1.
    by apply (old_filtered_spec _ _ _ Ho1).
  - intros t Ht. apply elem_of_app in Ht as [Ht|Ht].
    + apply Hbo. apply (elem_of_submseteq _ _ _ Ht) in Ho1.
      by apply (old_filtered_spec _ _ _ Ho1).
    + apply Hbn. by apply (elem_of_submseteq _ _ _ Ht).
Qed.

(** ** Referral commissions: roll-up and distribution of the pool *)




















(** The scenario of the spec on the witness: level 1 gets 4.5 and the company
    5.5 of the pool of 10. *)
Example one_level_rows :
  map (λ e, (e_referrer e, e_level e, Qred (e_commission e)))
      (event_rows 9 StakingReward "airdrop:1"
         (awardReferral referral_cfg 9 (Some StakingReward) "USDT" 100 "airdrop:1"
                        one_level_db).2)
  = [(8, Lvl1, (9 # 2)%Q); (5, LvlCompany, (11 # 2)%Q)].
Proof. vm_compute. reflexivity. Qed.

(** ** Reward-credit evaluation *)












Example one_qualified_stays_locked :
  c_status <$> credits (evaluateRewardCreditsForUser 0 1 one_qualified_db) !! 1
  = Some CLocked.
Proof. vm_compute. reflexivity. Qed.

Example two_qualified_becomes_claimable :
  c_status <$> credits (evaluateRewardCreditsForUser 0 1
                          (set_credits (λ _, credits
                             (evaluateRewardCreditsForUser 0 1 one_qualified_db))
                             two_qualified_db)) !! 1
  = Some CClaimable.
Proof. vm_compute. reflexivity. Qed.


(** ** Reward-credit claim: exactly once *)






